(** * Math Mentor Live: the session pipeline of [src/App.tsx]

    A shallow embedding of the stateful core of the [App] component: the
    teardown routine [cleanup], the start routine [startTutoring] with its
    four transport callbacks, and the grading routine
    [handleGradeAssignment].

    Conventions of the model.
    - A JavaScript string is the list of its UTF-16 code units.
    - React state ([useState]) and mutable references ([useRef]) are fields
      of an explicit state record that every routine passes along; the
      browser and the remote service are a third group of fields recording
      the effects the routines have on them.
    - A routine that awaits an outside party ([getUserMedia], [connect],
      [generateContent], [decodeAudioData]) takes the outcome of that wait
      as an argument and is run as one step; other callbacks interleaving at
      the wait are not modelled.
    - An exception that no [try] block catches ends the callback it is
      thrown in, with the state reached until then.
    - Playback times are counted in sample frames of the 24 kHz output
      context: both [currentTime] and the duration of a decoded buffer are a
      whole number of frames divided by the sample rate.  The rounding of
      their double representation is not modelled. *)

From Stdlib Require Import ZArith NArith String Ascii Floats List Lia.
From stdpp Require Import base decidable option list gmap sets.

Set Default Proof Using "Type".
#[local] Set Warnings "-clear-no-such-hyp".

(** ** JavaScript strings *)

Abbreviation JsString := (list N).

(** A literal of the source, all of whose characters are ASCII. *)
Definition lit (s : string) : JsString :=
  map N_of_ascii (list_ascii_of_string s).

Arguments lit : simpl never.

(** [WhiteSpace] and [LineTerminator] code points of ECMAScript, the ones
    [String.prototype.trim] strips.  All of them are in the basic plane, so a
    test on code units is exact. *)
Definition isWhiteSpace (c : N) : bool :=
  ((c =? 9) || (c =? 10) || (c =? 11) || (c =? 12) || (c =? 13) || (c =? 32)
   || (c =? 160) || (c =? 5760) || ((8192 <=? c) && (c <=? 8202))
   || (c =? 8232) || (c =? 8233) || (c =? 8239) || (c =? 8287)
   || (c =? 12288) || (c =? 65279))%N.

Fixpoint trimStart (s : JsString) : JsString :=
  match s with
  | c :: s' => if isWhiteSpace c then trimStart s' else s
  | [] => []
  end.

Definition trimEnd (s : JsString) : JsString := rev (trimStart (rev s)).

Definition trim (s : JsString) : JsString := trimEnd (trimStart s).

(** Truthiness of a string: every string but the empty one. *)
Definition truthy (s : JsString) : bool :=
  match s with [] => false | _ :: _ => true end.

(** [a || b] on a possibly undefined string [a] and a string [b]. *)
Definition orElse (a : option JsString) (b : JsString) : JsString :=
  match a with
  | Some s => if truthy s then s else b
  | None => b
  end.

(** [s += t] where [t] may be undefined: the undefined value is converted to
    the string [undefined]. *)
Definition appendText (s : JsString) (t : option JsString) : JsString :=
  s ++ default (lit "undefined") t.

(** ** Data model *)

(** Modelled from the spec: the enumeration [SessionStatus] of [./types],
    which is not among the sources; its four members are the ones [App.tsx]
    names. *)
Inductive SessionStatus := IDLE | CONNECTING | CONNECTED | ERROR.

Inductive Role := user | model.

(** Modelled from the spec: the record [TranscriptionEntry] of [./types],
    with the two fields the turn-complete branch fills in. *)
Record TranscriptionEntry := { role : Role; text : JsString }.

(** A value read from a parsed JSON document. *)
#[warnings="-register-all"]
Inductive JsonValue :=
| JNull
| JBool (b : bool)
| JNumber (f : float)
| JString (s : JsString)
| JArray (items : list JsonValue)
| JObject (fields : list (JsString * JsonValue)).

(** The report stored by [setFinalGrade].  The fields hold whatever value the
    [||] left there: the parsed one when it is truthy, else the placeholder
    string. *)
Record GradeReport := { grade : JsonValue; feedback : JsonValue }.

(** The drawing surface, as far as [drawHighlightSquare] looks at it. *)
Record Canvas := { width : float; height : float; has2d : bool }.

(** One [strokeRect (x, y, w, h)] call. *)
Record Stroke := { sx : float; sy : float; sw : float; sh : float }.

(** One started [AudioBufferSourceNode]: its start time and the duration of
    its buffer, in frames. *)
Record Segment := { seg_node : nat; seg_start : Z; seg_duration : Z }.

Definition seg_end (g : Segment) : Z := (seg_start g + seg_duration g)%Z.

(** The arguments of a call, which the declaration of [draw_square] makes
    numbers; a missing one reads as NaN. *)
Record DrawArgs := { arg_x : float; arg_y : float; arg_size : float }.

(** One call of a tool-call event; each of [id], [name] and [args] may be
    absent. *)
Record FunctionCall :=
  { fc_id : option JsString;
    fc_name : option JsString;
    fc_args : option DrawArgs }.

Record FunctionResponse :=
  { fr_id : option JsString; fr_name : option JsString; fr_result : JsString }.

Record Transcription := { t_text : option JsString }.

(** The fields of [message.serverContent] the handler looks at; [audio] is
    [modelTurn?.parts?.[0]?.inlineData?.data]. *)
Record ServerContent :=
  { audio : option JsString;
    interrupted : bool;
    inputTranscription : option Transcription;
    outputTranscription : option Transcription;
    turnComplete : bool }.

(** [message.toolCall], whose list of calls may be absent. *)
Record ToolCall := { functionCalls : option (list FunctionCall) }.

Record Message :=
  { toolCall : option ToolCall;
    serverContent : option ServerContent }.

(** *** The state *)

(** Values held by [useState]. *)
Record Ui :=
  { status : SessionStatus;
    transcriptions : list TranscriptionEntry;
    error : option JsString;
    rubric : JsString;
    finalGrade : option GradeReport;
    isGrading : bool;
    activeUserText : JsString;
    activeModelText : JsString }.

(** Values held by [useRef].  Audio contexts, sessions and source nodes are
    named by natural numbers, timers by the positive integer [setInterval]
    returns. *)
Record Refs :=
  { currentInputRef : JsString;
    currentOutputRef : JsString;
    audioContextInRef : option nat;
    audioContextOutRef : option nat;
    nextStartTimeRef : Z;
    sourcesRef : gset nat;
    canvasRef : option Canvas;
    sessionRef : option nat;
    intervalRef : option positive }.

(** The browser and the remote service: the audio contexts created so far
    and the ones [close] was called on; the running interval timers and the
    next timer to hand out; the source nodes in the order of their [start],
    and the ones [stop] was called on; the squares stroked on the canvas;
    the system instruction of each session opened by [connect], oldest
    first; the [sendToolResponse] messages, each with its session and its
    batch, oldest first. *)
Record Env :=
  { contexts : nat;
    closedContexts : gset nat;
    timers : gset positive;
    nextTimer : positive;
    started : list Segment;
    stopped : gset nat;
    strokes : list Stroke;
    connections : list JsString;
    toolResponses : list (nat * list FunctionResponse) }.

Record State := { ui : Ui; refs : Refs; env : Env }.

Definition onUi (f : Ui -> Ui) (st : State) : State :=
  {| ui := f (ui st); refs := refs st; env := env st |}.
Definition onRefs (f : Refs -> Refs) (st : State) : State :=
  {| ui := ui st; refs := f (refs st); env := env st |}.
Definition onEnv (f : Env -> Env) (st : State) : State :=
  {| ui := ui st; refs := refs st; env := f (env st) |}.

(** Assignment to one field, the others unchanged. *)

Definition setStatus (a : SessionStatus) : State -> State :=
  onUi (fun u => {| status := a; transcriptions := transcriptions u;
                    error := error u; rubric := rubric u;
                    finalGrade := finalGrade u; isGrading := isGrading u;
                    activeUserText := activeUserText u;
                    activeModelText := activeModelText u |}).

Definition setTranscriptions (a : list TranscriptionEntry) : State -> State :=
  onUi (fun u => {| status := status u; transcriptions := a; error := error u;
                    rubric := rubric u; finalGrade := finalGrade u;
                    isGrading := isGrading u;
                    activeUserText := activeUserText u;
                    activeModelText := activeModelText u |}).

Definition setError (a : option JsString) : State -> State :=
  onUi (fun u => {| status := status u; transcriptions := transcriptions u;
                    error := a; rubric := rubric u;
                    finalGrade := finalGrade u; isGrading := isGrading u;
                    activeUserText := activeUserText u;
                    activeModelText := activeModelText u |}).

Definition setFinalGrade (a : option GradeReport) : State -> State :=
  onUi (fun u => {| status := status u; transcriptions := transcriptions u;
                    error := error u; rubric := rubric u; finalGrade := a;
                    isGrading := isGrading u;
                    activeUserText := activeUserText u;
                    activeModelText := activeModelText u |}).

Definition setIsGrading (a : bool) : State -> State :=
  onUi (fun u => {| status := status u; transcriptions := transcriptions u;
                    error := error u; rubric := rubric u;
                    finalGrade := finalGrade u; isGrading := a;
                    activeUserText := activeUserText u;
                    activeModelText := activeModelText u |}).

Definition setActiveUserText (a : JsString) : State -> State :=
  onUi (fun u => {| status := status u; transcriptions := transcriptions u;
                    error := error u; rubric := rubric u;
                    finalGrade := finalGrade u; isGrading := isGrading u;
                    activeUserText := a;
                    activeModelText := activeModelText u |}).

Definition setActiveModelText (a : JsString) : State -> State :=
  onUi (fun u => {| status := status u; transcriptions := transcriptions u;
                    error := error u; rubric := rubric u;
                    finalGrade := finalGrade u; isGrading := isGrading u;
                    activeUserText := activeUserText u;
                    activeModelText := a |}).

Definition setCurrentInputRef (a : JsString) : State -> State :=
  onRefs (fun r => {| currentInputRef := a;
                      currentOutputRef := currentOutputRef r;
                      audioContextInRef := audioContextInRef r;
                      audioContextOutRef := audioContextOutRef r;
                      nextStartTimeRef := nextStartTimeRef r;
                      sourcesRef := sourcesRef r; canvasRef := canvasRef r;
                      sessionRef := sessionRef r;
                      intervalRef := intervalRef r |}).

Definition setCurrentOutputRef (a : JsString) : State -> State :=
  onRefs (fun r => {| currentInputRef := currentInputRef r;
                      currentOutputRef := a;
                      audioContextInRef := audioContextInRef r;
                      audioContextOutRef := audioContextOutRef r;
                      nextStartTimeRef := nextStartTimeRef r;
                      sourcesRef := sourcesRef r; canvasRef := canvasRef r;
                      sessionRef := sessionRef r;
                      intervalRef := intervalRef r |}).

Definition setAudioContextInRef (a : option nat) : State -> State :=
  onRefs (fun r => {| currentInputRef := currentInputRef r;
                      currentOutputRef := currentOutputRef r;
                      audioContextInRef := a;
                      audioContextOutRef := audioContextOutRef r;
                      nextStartTimeRef := nextStartTimeRef r;
                      sourcesRef := sourcesRef r; canvasRef := canvasRef r;
                      sessionRef := sessionRef r;
                      intervalRef := intervalRef r |}).

Definition setAudioContextOutRef (a : option nat) : State -> State :=
  onRefs (fun r => {| currentInputRef := currentInputRef r;
                      currentOutputRef := currentOutputRef r;
                      audioContextInRef := audioContextInRef r;
                      audioContextOutRef := a;
                      nextStartTimeRef := nextStartTimeRef r;
                      sourcesRef := sourcesRef r; canvasRef := canvasRef r;
                      sessionRef := sessionRef r;
                      intervalRef := intervalRef r |}).

Definition setNextStartTimeRef (a : Z) : State -> State :=
  onRefs (fun r => {| currentInputRef := currentInputRef r;
                      currentOutputRef := currentOutputRef r;
                      audioContextInRef := audioContextInRef r;
                      audioContextOutRef := audioContextOutRef r;
                      nextStartTimeRef := a; sourcesRef := sourcesRef r;
                      canvasRef := canvasRef r; sessionRef := sessionRef r;
                      intervalRef := intervalRef r |}).

Definition setSourcesRef (a : gset nat) : State -> State :=
  onRefs (fun r => {| currentInputRef := currentInputRef r;
                      currentOutputRef := currentOutputRef r;
                      audioContextInRef := audioContextInRef r;
                      audioContextOutRef := audioContextOutRef r;
                      nextStartTimeRef := nextStartTimeRef r; sourcesRef := a;
                      canvasRef := canvasRef r; sessionRef := sessionRef r;
                      intervalRef := intervalRef r |}).

Definition setSessionRef (a : option nat) : State -> State :=
  onRefs (fun r => {| currentInputRef := currentInputRef r;
                      currentOutputRef := currentOutputRef r;
                      audioContextInRef := audioContextInRef r;
                      audioContextOutRef := audioContextOutRef r;
                      nextStartTimeRef := nextStartTimeRef r;
                      sourcesRef := sourcesRef r; canvasRef := canvasRef r;
                      sessionRef := a; intervalRef := intervalRef r |}).

Definition setIntervalRef (a : option positive) : State -> State :=
  onRefs (fun r => {| currentInputRef := currentInputRef r;
                      currentOutputRef := currentOutputRef r;
                      audioContextInRef := audioContextInRef r;
                      audioContextOutRef := audioContextOutRef r;
                      nextStartTimeRef := nextStartTimeRef r;
                      sourcesRef := sourcesRef r; canvasRef := canvasRef r;
                      sessionRef := sessionRef r; intervalRef := a |}).

Definition setContexts (a : nat) : State -> State :=
  onEnv (fun e => {| contexts := a; closedContexts := closedContexts e;
                     timers := timers e; nextTimer := nextTimer e;
                     started := started e; stopped := stopped e;
                     strokes := strokes e; connections := connections e;
                     toolResponses := toolResponses e |}).

Definition setClosedContexts (a : gset nat) : State -> State :=
  onEnv (fun e => {| contexts := contexts e; closedContexts := a;
                     timers := timers e; nextTimer := nextTimer e;
                     started := started e; stopped := stopped e;
                     strokes := strokes e; connections := connections e;
                     toolResponses := toolResponses e |}).

Definition setTimers (a : gset positive) : State -> State :=
  onEnv (fun e => {| contexts := contexts e;
                     closedContexts := closedContexts e; timers := a;
                     nextTimer := nextTimer e; started := started e;
                     stopped := stopped e; strokes := strokes e;
                     connections := connections e;
                     toolResponses := toolResponses e |}).

Definition setNextTimer (a : positive) : State -> State :=
  onEnv (fun e => {| contexts := contexts e;
                     closedContexts := closedContexts e; timers := timers e;
                     nextTimer := a; started := started e;
                     stopped := stopped e; strokes := strokes e;
                     connections := connections e;
                     toolResponses := toolResponses e |}).

Definition setStarted (a : list Segment) : State -> State :=
  onEnv (fun e => {| contexts := contexts e;
                     closedContexts := closedContexts e; timers := timers e;
                     nextTimer := nextTimer e; started := a;
                     stopped := stopped e; strokes := strokes e;
                     connections := connections e;
                     toolResponses := toolResponses e |}).

Definition setStopped (a : gset nat) : State -> State :=
  onEnv (fun e => {| contexts := contexts e;
                     closedContexts := closedContexts e; timers := timers e;
                     nextTimer := nextTimer e; started := started e;
                     stopped := a; strokes := strokes e;
                     connections := connections e;
                     toolResponses := toolResponses e |}).

Definition setStrokes (a : list Stroke) : State -> State :=
  onEnv (fun e => {| contexts := contexts e;
                     closedContexts := closedContexts e; timers := timers e;
                     nextTimer := nextTimer e; started := started e;
                     stopped := stopped e; strokes := a;
                     connections := connections e;
                     toolResponses := toolResponses e |}).

Definition setConnections (a : list JsString) : State -> State :=
  onEnv (fun e => {| contexts := contexts e;
                     closedContexts := closedContexts e; timers := timers e;
                     nextTimer := nextTimer e; started := started e;
                     stopped := stopped e; strokes := strokes e;
                     connections := a; toolResponses := toolResponses e |}).

Definition setToolResponses (a : list (nat * list FunctionResponse))
  : State -> State :=
  onEnv (fun e => {| contexts := contexts e;
                     closedContexts := closedContexts e; timers := timers e;
                     nextTimer := nextTimer e; started := started e;
                     stopped := stopped e; strokes := strokes e;
                     connections := connections e; toolResponses := a |}).

(** ** Teardown *)

Definition clearInterval (t : positive) (st : State) : State :=
  setTimers (timers (env st) ∖ {[t]}) st.

Definition closeContext (c : nat) (st : State) : State :=
  setClosedContexts ({[c]} ∪ closedContexts (env st)) st.

(** [sourcesRef.current.forEach (s => s.stop ())] *)
Definition stopSources (st : State) : State :=
  setStopped (sourcesRef (refs st) ∪ stopped (env st)) st.

Definition cleanup (st : State) : State :=
  let st := match intervalRef (refs st) with
            | Some t => clearInterval t st
            | None => st
            end in
  let st := match audioContextInRef (refs st) with
            | Some c => closeContext c st
            | None => st
            end in
  let st := match audioContextOutRef (refs st) with
            | Some c => closeContext c st
            | None => st
            end in
  let st := stopSources st in
  let st := setSourcesRef ∅ st in
  let st := setSessionRef None st in
  let st := setStatus IDLE st in
  let st := setActiveUserText [] st in
  let st := setActiveModelText [] st in
  let st := setCurrentInputRef [] st in
  setCurrentOutputRef [] st.

(** ** The system instruction *)

Definition nl : JsString := [10%N].

Definition BASE_SYSTEM_INSTRUCTION : JsString :=
  lit "You are an expert, patient, and friendly math tutor." ++ nl ++
  lit "The user will share their screen (a handwriting canvas) and talk to you while solving math problems." ++ nl ++
  lit "Your goal is to guide the user through the solution using the Socratic method." ++ nl ++
  nl ++
  lit "IMPORTANT RULES:" ++ nl ++
  lit "1. NEVER give the final answer directly." ++ nl ++
  lit "2. Ask leading questions to help the user realize their own mistakes or find the next step." ++ nl ++
  lit "3. If the user is stuck, provide a hint or explain a concept related to the problem." ++ nl ++
  lit "4. Encourage the user and acknowledge their progress." ++ nl ++
  lit "5. Keep your spoken responses concise so the user can focus on writing." ++ nl ++
  lit "6. Observe the handwriting canvas closely to understand what the user is writing in real-time.".

Definition GREET_CLAUSE : JsString :=
  lit "INITIALIZATION: The teacher has provided a specific rubric/problem below. You MUST start the conversation immediately. Greet the student and explicitly ask them to solve the problem described in the rubric.".

Definition WAIT_CLAUSE : JsString :=
  lit "INITIALIZATION: No specific rubric is provided. You MUST NOT speak first. Wait for the student to speak, greet you, or start drawing before you say anything.".

Definition RUBRIC_HEADER : JsString :=
  lit "SPECIFIC RUBRIC/INSTRUCTIONS FROM TEACHER:" ++ nl.

(** [rubric && rubric.trim ().length > 0] *)
Definition hasRubric (r : JsString) : bool :=
  truthy r && (0 <? length (trim r))%nat.

Definition behaviorInstruction (r : JsString) : JsString :=
  if hasRubric r then GREET_CLAUSE else WAIT_CLAUSE.

Definition finalInstruction (r : JsString) : JsString :=
  BASE_SYSTEM_INSTRUCTION ++ nl ++ nl ++ behaviorInstruction r ++ nl ++ nl ++
  (if hasRubric r then RUBRIC_HEADER ++ r else []).

(** ** Starting a session *)

(** What the two waits of [startTutoring] come back with.  A rejection
    carries the [message] of the error, if it has one. *)
Inductive StartOutcome :=
| MicrophoneFails (message : option JsString)
| ConnectFails (message : option JsString)
| ConnectOpens.

(** The statements before the first wait. *)
Definition startTutoring_begin (st : State) : State :=
  let st := setStatus CONNECTING st in
  let st := setError None st in
  let st := setFinalGrade None st in
  let st := setTranscriptions [] st in
  let audioCtxIn := contexts (env st) in
  let audioCtxOut := S (contexts (env st)) in
  let st := setContexts (S (S (contexts (env st)))) st in
  let st := setAudioContextInRef (Some audioCtxIn) st in
  setAudioContextOutRef (Some audioCtxOut) st.

(** The [catch] block. *)
Definition startTutoring_catch (message : option JsString) (st : State)
  : State :=
  let st := setError (Some (orElse message
                              (lit "Failed to initialize session."))) st in
  let st := setStatus ERROR st in
  cleanup st.

(** [ai.live.connect] with the instruction built from the rubric, and the
    assignment of the resolved session to [sessionRef]. *)
Definition startTutoring_connect (st : State) : State :=
  let session := length (connections (env st)) in
  let st := setConnections
              (connections (env st) ++ [finalInstruction (rubric (ui st))])
              st in
  setSessionRef (Some session) st.

Definition startTutoring (o : StartOutcome) (st : State) : State :=
  let st := startTutoring_begin st in
  match o with
  | MicrophoneFails message => startTutoring_catch message st
  | ConnectFails message => startTutoring_catch message st
  | ConnectOpens => startTutoring_connect st
  end.

(** The start control of the header: it is rendered in place of the
    disconnect control unless the status is [CONNECTED], and is disabled
    while the status is [CONNECTING]. *)
Definition startOffered (st : State) : bool :=
  match status (ui st) with
  | CONNECTED => false
  | CONNECTING => false
  | _ => true
  end.

(** ** The transport callbacks *)

(** [drawHighlightSquare]: nothing without a canvas or without its 2d
    context; else one stroked square, from thousandths to pixels. *)
Definition drawHighlightSquare (a : DrawArgs) (st : State) : State :=
  match canvasRef (refs st) with
  | None => st
  | Some canvas =>
      if has2d canvas then
        let px := (arg_x a / 1000 * width canvas)%float in
        let py := (arg_y a / 1000 * height canvas)%float in
        let s := (arg_size a / 1000 * width canvas)%float in
        setStrokes (strokes (env st) ++
                    [{| sx := (px - s / 2)%float; sy := (py - s / 2)%float;
                        sw := s; sh := s |}]) st
      else st
  end.

(** The body of the [map] over the calls of one tool-call event.  [None] is
    the [TypeError] of destructuring the [args] of a [draw_square] call that
    has none; a call of another name does not look at its [args]. *)
Definition respond (fc : FunctionCall) (st : State)
  : option (State * FunctionResponse) :=
  if bool_decide (fc_name fc = Some (lit "draw_square")) then
    match fc_args fc with
    | Some args =>
        Some (drawHighlightSquare args st,
              {| fr_id := fc_id fc; fr_name := fc_name fc;
                 fr_result := lit "ok" |})
    | None => None
    end
  else
    Some (st,
          {| fr_id := fc_id fc; fr_name := fc_name fc;
             fr_result := lit "error: tool not found" |}).

(** The [map]: the state after the calls it got through, and the array of
    results, or [None] when a call threw; the calls after that one are not
    looked at, and the squares drawn before it stay. *)
Fixpoint respondAll (fcs : list FunctionCall) (st : State)
  : State * option (list FunctionResponse) :=
  match fcs with
  | [] => (st, Some [])
  | fc :: fcs' =>
      match respond fc st with
      | None => (st, None)
      | Some (st, r) =>
          let '(st, rs) := respondAll fcs' st in
          (st, option_map (cons r) rs)
      end
  end.

(** How a block of statements ends: by coming to its end, or by an exception
    that nothing catches; either way with the state reached until then. *)
Inductive Completion :=
| Returns (st : State)
| Throws (st : State).

Definition stateOf (c : Completion) : State :=
  match c with
  | Returns st => st
  | Throws st => st
  end.

Section Callbacks.

(** The session the callbacks were registered for ([sessionPromise] of the
    enclosing [startTutoring]). *)
Variable session : nat.

(** The number of frames of the buffer that [decodeAudioData (decode data)]
    of [./services/audioUtils] returns; that module is not among the
    sources. *)
Variable decodedFrames : JsString -> N.

Definition sendToolResponse (rs : list FunctionResponse) (st : State)
  : State :=
  setToolResponses (toolResponses (env st) ++ [(session, rs)]) st.

(** The tool-call branch.  Calling [map] on an absent list of calls is a
    [TypeError] too. *)
Definition onToolCall (tc : ToolCall) (st : State) : Completion :=
  match functionCalls tc with
  | None => Throws st
  | Some fcs =>
      match respondAll fcs st with
      | (st, None) => Throws st
      | (st, Some functionResponses) =>
          Returns (if (0 <? length functionResponses)%nat
                   then sendToolResponse functionResponses st
                   else st)
      end
  end.

(** The audio branch: [now] is [outCtx.currentTime]. *)
Definition onAudio (now : Z) (data : JsString) (st : State) : State :=
  if truthy data then
    match audioContextOutRef (refs st) with
    | None => st
    | Some _ =>
        let st := setNextStartTimeRef
                    (Z.max (nextStartTimeRef (refs st)) now) st in
        let duration := Z.of_N (decodedFrames data) in
        let source := length (started (env st)) in
        let st := setStarted
                    (started (env st) ++
                     [{| seg_node := source;
                         seg_start := nextStartTimeRef (refs st);
                         seg_duration := duration |}]) st in
        let st := setNextStartTimeRef
                    (nextStartTimeRef (refs st) + duration)%Z st in
        setSourcesRef ({[source]} ∪ sourcesRef (refs st)) st
    end
  else st.

(** The listener each source node gets for its [ended] event. *)
Definition onEnded (source : nat) (st : State) : State :=
  setSourcesRef (sourcesRef (refs st) ∖ {[source]}) st.

Definition onInterrupted (st : State) : State :=
  let st := stopSources st in
  let st := setSourcesRef ∅ st in
  let st := setNextStartTimeRef 0%Z st in
  let st := setCurrentOutputRef
              (currentOutputRef (refs st) ++ lit " [Interrupted]") st in
  setActiveModelText (currentOutputRef (refs st)) st.

Definition onInputTranscription (t : Transcription) (st : State) : State :=
  let st := setCurrentInputRef
              (appendText (currentInputRef (refs st)) (t_text t)) st in
  setActiveUserText (currentInputRef (refs st)) st.

Definition onOutputTranscription (t : Transcription) (st : State) : State :=
  let st := setCurrentOutputRef
              (appendText (currentOutputRef (refs st)) (t_text t)) st in
  setActiveModelText (currentOutputRef (refs st)) st.

(** The entries a completed turn commits, from the two buffers. *)
Definition historyToAppend (input output : JsString)
  : list TranscriptionEntry :=
  (if truthy (trim input)
   then [{| role := user; text := trim input |}] else []) ++
  (if truthy (trim output)
   then [{| role := model; text := trim output |}] else []).

Definition onTurnComplete (st : State) : State :=
  let entries := historyToAppend (currentInputRef (refs st))
                                 (currentOutputRef (refs st)) in
  let st := if (0 <? length entries)%nat
            then setTranscriptions (transcriptions (ui st) ++ entries) st
            else st in
  let st := setCurrentInputRef [] st in
  let st := setCurrentOutputRef [] st in
  let st := setActiveUserText [] st in
  setActiveModelText [] st.

(** The branches of [onmessage] that read [message.serverContent], in the
    order of the source, each taken when its field is present. *)
Definition onServerContent (now : Z) (content : option ServerContent)
    (st : State) : State :=
  match content with
  | None => st
  | Some sc =>
      let st := match audio sc with
                | Some data => onAudio now data st
                | None => st
                end in
      let st := if interrupted sc then onInterrupted st else st in
      let st := match inputTranscription sc with
                | Some t => onInputTranscription t st
                | None => st
                end in
      let st := match outputTranscription sc with
                | Some t => onOutputTranscription t st
                | None => st
                end in
      if turnComplete sc then onTurnComplete st else st
  end.

(** [onmessage]: the tool-call branch, and then the branches for the server
    content.  The handler is an [async] function with no [try] in it: an
    exception in the tool-call branch ends it there, and the rest of the
    message is not looked at. *)
Definition onmessage (now : Z) (m : Message) (st : State) : State :=
  let branch := match toolCall m with
                | Some tc => onToolCall tc st
                | None => Returns st
                end in
  match branch with
  | Returns st => onServerContent now (serverContent m) st
  | Throws st => st
  end.

(** [onopen]; the wiring of the microphone to the script processor leaves
    the state kept here as it is. *)
Definition onopen (st : State) : State :=
  let st := setStatus CONNECTED st in
  let t := nextTimer (env st) in
  let st := setTimers ({[t]} ∪ timers (env st)) st in
  let st := setNextTimer (Pos.succ t) st in
  setIntervalRef (Some t) st.

Definition onerror (st : State) : State :=
  let st := setError (Some (lit "An error occurred during the session."))
              st in
  cleanup st.

Definition onclose (st : State) : State := cleanup st.

End Callbacks.

(** ** Grading *)

(** Truthiness of a parsed value. *)
Definition jsTruthy (v : JsonValue) : bool :=
  match v with
  | JNull => false
  | JBool b => b
  | JNumber f => negb (PrimFloat.eqb f 0 || PrimFloat.is_nan f)
  | JString s => truthy s
  | JArray _ => true
  | JObject _ => true
  end.

(** The member of an object named [k]; of two members with one name
    [JSON.parse] keeps the later. *)
Fixpoint member (k : JsString) (fields : list (JsString * JsonValue))
  : option JsonValue :=
  match fields with
  | [] => None
  | (k', v) :: fields' =>
      match member k fields' with
      | Some v' => Some v'
      | None => if bool_decide (k' = k) then Some v else None
      end
  end.

(** Reading [result.grade] or [result.feedback], two names no prototype
    defines: a [TypeError] on null ([None]), the member on an object, and
    undefined ([Some None]) on every other value. *)
Definition readField (result : JsonValue) (k : JsString)
  : option (option JsonValue) :=
  match result with
  | JNull => None
  | JObject fields => Some (member k fields)
  | _ => Some None
  end.

(** [v || d] for a field read [v] and a placeholder string [d]. *)
Definition orPlaceholder (v : option JsonValue) (d : JsString) : JsonValue :=
  match v with
  | Some x => if jsTruthy x then x else JString d
  | None => JString d
  end.

Definition GRADE_PLACEHOLDER : JsString := lit "N/A".
Definition FEEDBACK_PLACEHOLDER : JsString :=
  lit "Could not generate feedback.".

(** What the request of [handleGradeAssignment] comes back with: a failure
    (taking the snapshot throws, or [generateContent] rejects), or a response
    whose [text] may be undefined. *)
Inductive GradeOutcome :=
| RequestFails
| Responds (text : option JsString).

Section Grading.

(** [JSON.parse] of the runtime: [None] when it throws a [SyntaxError]. *)
Variable JSON_parse : JsString -> option JsonValue.

(** The [catch] block. *)
Definition grading_catch (st : State) : State :=
  setError (Some (lit "Grading process failed. Please try again.")) st.

(** The statements of the [try] block after the response arrived. *)
Definition grading_store (text : option JsString) (st : State) : State :=
  match JSON_parse (orElse text (lit "{}")) with
  | None => grading_catch st
  | Some result =>
      match readField result (lit "grade"),
            readField result (lit "feedback") with
      | Some g, Some f =>
          let st := setFinalGrade
                      (Some {| grade := orPlaceholder g GRADE_PLACEHOLDER;
                               feedback :=
                                 orPlaceholder f FEEDBACK_PLACEHOLDER |})
                      st in
          cleanup st
      | _, _ => grading_catch st
      end
  end.

Definition handleGradeAssignment (o : GradeOutcome) (st : State) : State :=
  match canvasRef (refs st) with
  | None => st
  | Some _ =>
      let st := setIsGrading true st in
      let st := match o with
                | RequestFails => grading_catch st
                | Responds text => grading_store text st
                end in
      setIsGrading false st
  end.

End Grading.

(** ** Sample states and events *)

(** The component as mounted: idle, nothing recorded, with the rubric [r] and
    the canvas [c]. *)
Definition mounted (r : JsString) (c : option Canvas) : State :=
  {| ui := {| status := IDLE; transcriptions := []; error := None;
              rubric := r; finalGrade := None; isGrading := false;
              activeUserText := []; activeModelText := [] |};
     refs := {| currentInputRef := []; currentOutputRef := [];
                audioContextInRef := None; audioContextOutRef := None;
                nextStartTimeRef := 0; sourcesRef := ∅; canvasRef := c;
                sessionRef := None; intervalRef := None |};
     env := {| contexts := 0; closedContexts := ∅; timers := ∅;
               nextTimer := 1; started := []; stopped := ∅; strokes := [];
               connections := []; toolResponses := [] |} |}.

Definition board : Canvas :=
  {| width := 800; height := 600; has2d := true |}.

(** A session opened from the mounted component, and connected. *)
Definition live (r : JsString) : State :=
  onopen (startTutoring ConnectOpens (mounted r (Some board))).

Definition turnCompleteEvent : Message :=
  {| toolCall := None;
     serverContent :=
       Some {| audio := None; interrupted := false;
               inputTranscription := None; outputTranscription := None;
               turnComplete := true |} |}.

Definition interruptionEvent : Message :=
  {| toolCall := None;
     serverContent :=
       Some {| audio := None; interrupted := true;
               inputTranscription := None; outputTranscription := None;
               turnComplete := false |} |}.

Definition audioEvent (data : JsString) : Message :=
  {| toolCall := None;
     serverContent :=
       Some {| audio := Some data; interrupted := false;
               inputTranscription := None; outputTranscription := None;
               turnComplete := false |} |}.

Definition inputEvent (t : JsString) : Message :=
  {| toolCall := None;
     serverContent :=
       Some {| audio := None; interrupted := false;
               inputTranscription := Some {| t_text := Some t |};
               outputTranscription := None; turnComplete := false |} |}.

Definition outputEvent (t : JsString) : Message :=
  {| toolCall := None;
     serverContent :=
       Some {| audio := None; interrupted := false;
               inputTranscription := None;
               outputTranscription := Some {| t_text := Some t |};
               turnComplete := false |} |}.

Definition toolCallEvent (fcs : list FunctionCall) : Message :=
  {| toolCall := Some {| functionCalls := Some fcs |};
     serverContent := None |}.

(** ** The component as a transition system *)

(** What can happen to the mounted component: the controls of the header
    and the callbacks of the browser and of the transport. *)
Inductive Event :=
| Start (o : StartOutcome)
| Disconnect
| Grade (o : GradeOutcome)
| Open
| Receive (session : nat) (now : Z) (m : Message)
| Fail
| Close
| Ended (source : nat).

(** The start control is there when [startOffered] says so; the disconnect
    and grade controls are rendered when the status is [CONNECTED], the
    grade control disabled while a grading is under way.  Callbacks come
    when they come. *)
Definition offered (ev : Event) (st : State) : bool :=
  match ev with
  | Start _ => startOffered st
  | Disconnect =>
      match status (ui st) with CONNECTED => true | _ => false end
  | Grade _ =>
      match status (ui st) with
      | CONNECTED => negb (isGrading (ui st))
      | _ => false
      end
  | _ => true
  end.

Definition deliver (frames : JsString -> N)
    (parse : JsString -> option JsonValue) (ev : Event) (st : State)
  : State :=
  match ev with
  | Start o => startTutoring o st
  | Disconnect => cleanup st
  | Grade o => handleGradeAssignment parse o st
  | Open => onopen st
  | Receive session now m => onmessage session frames now m st
  | Fail => onerror st
  | Close => onclose st
  | Ended source => onEnded source st
  end.

Inductive reachable (frames : JsString -> N)
    (parse : JsString -> option JsonValue) (init : State) : State -> Prop :=
| reach_init : reachable frames parse init init
| reach_step st ev :
    reachable frames parse init st -> offered ev st = true ->
    reachable frames parse init (deliver frames parse ev st).

(** Audio events arriving one after the other, each with the reading of the
    clock at its arrival, and nothing else in between. *)
Definition enqueueAll (session : nat) (frames : JsString -> N)
    (arrivals : list (Z * JsString)) (st : State) : State :=
  fold_left (fun st a => onmessage session frames a.1 (audioEvent a.2) st)
            arrivals st.

(** ** Vocabulary of the specification *)

(** The result the dispatcher owes to a request: the request's identifier
    and name, and [ok] for the declared capability, an error tag for any
    other name. *)
Definition answers (fc : FunctionCall) (r : FunctionResponse) : Prop :=
  fr_id r = fc_id fc /\ fr_name r = fc_name fc
  /\ fr_result r = if bool_decide (fc_name fc = Some (lit "draw_square"))
                   then lit "ok" else lit "error: tool not found".

(** A request passes when the [map] body can answer it: every request
    does but one for [draw_square] that carries no [args]. *)
Definition passes (fc : FunctionCall) : bool :=
  negb (bool_decide (fc_name fc = Some (lit "draw_square")))
  || match fc_args fc with Some _ => true | None => false end.

Section ScheduleWords.

Variable frames : JsString -> N.

Definition total (arrivals : list (Z * JsString)) : Z :=
  foldr (fun a acc => Z.of_N (frames a.2) + acc)%Z 0%Z arrivals.

(** The schedule in the words of the specification: each segment starts at
    the later of the cursor and the clock, and moves the cursor to its
    end; [final] is the cursor after the last one. *)
Fixpoint scheduled (cursor : Z) (arrivals : list (Z * JsString))
    (segs : list Segment) (final : Z) : Prop :=
  match arrivals, segs with
  | [], [] => final = cursor
  | a :: arrivals', g :: segs' =>
      seg_start g = Z.max cursor a.1
      /\ seg_duration g = Z.of_N (frames a.2)
      /\ scheduled (seg_end g) arrivals' segs' final
  | _, _ => False
  end.

(** No segment arrives with the clock already past the cursor. *)
Fixpoint onTime (cursor : Z) (arrivals : list (Z * JsString)) : Prop :=
  match arrivals with
  | [] => True
  | a :: arrivals' =>
      (a.1 <= cursor)%Z
      /\ onTime (cursor + Z.of_N (frames a.2)) arrivals'
  end.

End ScheduleWords.

(** Whether [needle] occurs in [s]. *)
Fixpoint isPrefix (needle s : JsString) : bool :=
  match needle, s with
  | [], _ => true
  | a :: needle', b :: s' => (a =? b)%N && isPrefix needle' s'
  | _ :: _, [] => false
  end.

Fixpoint includes (needle s : JsString) : bool :=
  isPrefix needle s ||
  match s with
  | [] => false
  | _ :: s' => includes needle s'
  end.

(** ** Sample requests and responses *)

Definition drawRequest : FunctionCall :=
  {| fc_id := Some (lit "call-1"); fc_name := Some (lit "draw_square");
     fc_args := Some {| arg_x := 500; arg_y := 500; arg_size := 100 |} |}.

Definition eraseRequest : FunctionCall :=
  {| fc_id := Some (lit "call-2"); fc_name := Some (lit "erase_all");
     fc_args := Some {| arg_x := 0; arg_y := 0; arg_size := 0 |} |}.

(** A request for the declared capability that carries no [args]. *)
Definition bareDrawRequest : FunctionCall :=
  {| fc_id := Some (lit "call-3"); fc_name := Some (lit "draw_square");
     fc_args := None |}.

(** A message with the calls [fcs] and with the server content [content]. *)
Definition toolCallWith (fcs : list FunctionCall)
    (content : option ServerContent) : Message :=
  {| toolCall := Some {| functionCalls := Some fcs |};
     serverContent := content |}.

Definition quote : JsString := [34%N].

(** The body [{"grade":"A"}]. *)
Definition gradeOnlyBody : JsString :=
  lit "{" ++ quote ++ lit "grade" ++ quote ++ lit ":" ++
  quote ++ lit "A" ++ quote ++ lit "}".

(** What [JSON.parse] does on the bodies of the examples. *)
Definition parseSample (body : JsString) : option JsonValue :=
  if bool_decide (body = gradeOnlyBody)
  then Some (JObject [(lit "grade", JString (lit "A"))])
  else if bool_decide (body = lit "{}") then Some (JObject [])
  else if bool_decide (body = lit "null") then Some JNull
  else None.

(** ** Runs of events *)

(** Messages arriving one after the other, each with the reading of the
    clock at its arrival. *)
Definition receiveAll (session : nat) (frames : JsString -> N)
    (ms : list (Z * Message)) (st : State) : State :=
  fold_left (fun st a => onmessage session frames a.1 a.2 st) ms st.

(** A partial transcript of one of the two speakers. *)
Definition partialEvent (p : Role * JsString) : Message :=
  match p.1 with
  | user => inputEvent p.2
  | model => outputEvent p.2
  end.

(** The texts of one speaker among partial transcripts, joined in order. *)
Definition spoken (r : Role) (ps : list (Role * JsString)) : JsString :=
  concat (map (fun p : Role * JsString =>
                 match p.1, r with
                 | user, user | model, model => p.2
                 | _, _ => []
                 end) ps).

(** What [onmessage] leaves alone: every field but the history, the four
    buffers, the playback cursor and pending set, the source nodes, the
    strokes and the tool responses. *)
Definition untouched (st : State) :=
  (status (ui st), error (ui st), rubric (ui st), finalGrade (ui st),
   isGrading (ui st), audioContextInRef (refs st),
   audioContextOutRef (refs st), canvasRef (refs st), sessionRef (refs st),
   intervalRef (refs st), contexts (env st), closedContexts (env st),
   timers (env st), nextTimer (env st), connections (env st)).

(** An entry as the turn-complete branch makes them: its text is not empty
    and has no white space at either end. *)
Definition trimmed (e : TranscriptionEntry) : Prop :=
  text e <> [] /\ trim (text e) = text e.

(** The source nodes started so far are numbered from 0. *)
Definition wasStarted (st : State) (source : nat) : Prop :=
  (source < length (started (env st)))%nat.

(** Whether [drawHighlightSquare] finds a canvas with a 2d context. *)
Definition drawable (st : State) : bool :=
  match canvasRef (refs st) with
  | Some canvas => has2d canvas
  | None => false
  end.

(** The requests for the declared capability among those of an event. *)
Definition drawRequests (fcs : list FunctionCall) : list FunctionCall :=
  filter (fun fc => fc_name fc = Some (lit "draw_square")) fcs.

(** The requests the [map] gets through: those before the first request
    that does not pass. *)
Fixpoint served (fcs : list FunctionCall) : list FunctionCall :=
  match fcs with
  | [] => []
  | fc :: fcs' => if passes fc then fc :: served fcs' else []
  end.

(** The live texts show what the two buffers hold. *)
Definition mirrored (st : State) : Prop :=
  activeUserText (ui st) = currentInputRef (refs st)
  /\ activeModelText (ui st) = currentOutputRef (refs st).

(** Every pending source node was started and not stopped, and every stopped
    one was started. *)
Definition pendingSound (st : State) : Prop :=
  (forall n, n ∈ sourcesRef (refs st) ->
             wasStarted st n /\ n ∉ stopped (env st))
  /\ (forall n, n ∈ stopped (env st) -> wasStarted st n).

(** Every audio context created so far is closed or held by one of the two
    references, and under the status [IDLE] the held ones are closed too. *)
Definition contextsAccounted (st : State) : Prop :=
  (forall c, (c < contexts (env st))%nat ->
             c ∈ closedContexts (env st)
             \/ audioContextInRef (refs st) = Some c
             \/ audioContextOutRef (refs st) = Some c)
  /\ (status (ui st) = IDLE ->
      forall c, audioContextInRef (refs st) = Some c
                \/ audioContextOutRef (refs st) = Some c ->
                c ∈ closedContexts (env st)).

(** ** The grading prompt *)

Definition roleText (r : Role) : JsString :=
  match r with user => lit "user" | model => lit "model" end.

(** [lines.join (sep)] *)
Fixpoint join (sep : JsString) (lines : list JsString) : JsString :=
  match lines with
  | [] => []
  | [l] => l
  | l :: lines' => l ++ sep ++ join sep lines'
  end.

(** [transcriptions.map (t => `${t.role}: ${t.text}`).join ('\n')] *)
Definition historyText (ts : list TranscriptionEntry) : JsString :=
  join nl (map (fun t => roleText (role t) ++ lit ": " ++ text t) ts).

Definition DEFAULT_RUBRIC : JsString :=
  lit "Standard math solving performance.".

(** The rubric as the prompt names it: [rubric || DEFAULT_RUBRIC]. *)
Definition promptRubric (r : JsString) : JsString :=
  orElse (Some r) DEFAULT_RUBRIC.

Definition prompt (r : JsString) (ts : list TranscriptionEntry) : JsString :=
  lit "Review the following math assignment completion." ++ nl ++
  lit "Teacher's Rubric: " ++ promptRubric r ++ nl ++
  nl ++
  lit "Conversation History:" ++ nl ++
  historyText ts ++ nl ++
  nl ++
  lit "Based on the provided canvas image and conversation history, generate a grade and helpful feedback." ++ nl ++
  lit "Return as JSON with keys: " ++ quote ++ lit "grade" ++ quote ++
  lit " (string) and " ++ quote ++ lit "feedback" ++ quote ++
  lit " (string, markdown supported).".

(** ** The handwriting canvas

    The component [MathCanvas], which follows [App] in the source file.  Its
    canvas element is known by its size, by whether it gives a 2d context,
    and by the marks made on its bitmap since the size was last set. *)
Module MathCanvas.

Record Point := { x : float; y : float }.

(** A mark on the bitmap: a stroked line, a white [fillRect] from the
    origin, or a [drawImage] at the origin of a saved bitmap. *)
#[warnings="-register-all"]
Inductive Mark :=
| Line (from to : Point)
| Fill (w h : Z)
| Image (saved : list Mark) (w h : Z).

Record Element :=
  { width : Z; height : Z; has2d : bool; marks : list Mark }.

(** [drawingRef] and [lastPosRef], the canvas element behind [canvasRef],
    and how many times [onCanvasRef] was called. *)
Record Pad :=
  { canvasRef : option Element;
    drawingRef : bool;
    lastPosRef : Point;
    handed : nat }.

(** A mouse event, or a touch event with its list of touches. *)
Inductive Pointer :=
| Mouse (clientX clientY : float)
| Touches (touches : list (float * float)).

(** The corner of [getBoundingClientRect ()]. *)
Record Rect := { left : float; top : float }.

Definition getPointerPos (rect : Rect) (e : Pointer) (pad : Pad) : Point :=
  match canvasRef pad with
  | None => {| x := 0; y := 0 |}
  | Some _ =>
      match e with
      | Touches [] => lastPosRef pad
      | Touches ((clientX, clientY) :: _) | Mouse clientX clientY =>
          {| x := (clientX - left rect)%float;
             y := (clientY - top rect)%float |}
      end
  end.

Definition startDrawing (rect : Rect) (e : Pointer) (pad : Pad) : Pad :=
  {| canvasRef := canvasRef pad; drawingRef := true;
     lastPosRef := getPointerPos rect e pad; handed := handed pad |}.

Definition draw (rect : Rect) (e : Pointer) (pad : Pad) : Pad :=
  if drawingRef pad then
    match canvasRef pad with
    | None => pad
    | Some canvas =>
        if has2d canvas then
          let pos := getPointerPos rect e pad in
          {| canvasRef :=
               Some {| width := width canvas; height := height canvas;
                       has2d := true;
                       marks := marks canvas ++ [Line (lastPosRef pad) pos] |};
             drawingRef := true; lastPosRef := pos; handed := handed pad |}
        else pad
    end
  else pad.

Definition endDrawing (pad : Pad) : Pad :=
  {| canvasRef := canvasRef pad; drawingRef := false;
     lastPosRef := lastPosRef pad; handed := handed pad |}.

Definition clearCanvas (pad : Pad) : Pad :=
  match canvasRef pad with
  | None => pad
  | Some canvas =>
      if has2d canvas then
        {| canvasRef :=
             Some {| width := width canvas; height := height canvas;
                     has2d := true;
                     marks := marks canvas ++
                              [Fill (width canvas) (height canvas)] |};
           drawingRef := drawingRef pad; lastPosRef := lastPosRef pad;
           handed := handed pad |}
      else pad
  end.

(** [handleResize]; [parent] is the client size of the parent element, if
    the canvas has one.  Setting the size of a canvas clears its bitmap. *)
Definition handleResize (parent : option (Z * Z)) (pad : Pad) : Pad :=
  match canvasRef pad, parent with
  | Some canvas, Some (newWidth, newHeight) =>
      if bool_decide (width canvas <> newWidth)
         || bool_decide (height canvas <> newHeight)
      then
        let redrawn :=
          if has2d canvas then
            Fill newWidth newHeight ::
            (if (0 <? width canvas)%Z && (0 <? height canvas)%Z
             then [Image (marks canvas) (width canvas) (height canvas)]
             else [])
          else [] in
        {| canvasRef :=
             Some {| width := newWidth; height := newHeight;
                     has2d := has2d canvas; marks := redrawn |};
           drawingRef := drawingRef pad; lastPosRef := lastPosRef pad;
           handed := S (handed pad) |}
      else pad
  | _, _ => pad
  end.

(** What the pointer does to the pad. *)
Inductive Gesture :=
| Down (rect : Rect) (e : Pointer)
| Move (rect : Rect) (e : Pointer)
| Up.

Definition gesture (g : Gesture) (pad : Pad) : Pad :=
  match g with
  | Down rect e => startDrawing rect e pad
  | Move rect e => draw rect e pad
  | Up => endDrawing pad
  end.

Definition gestures (gs : list Gesture) (pad : Pad) : Pad :=
  fold_left (fun pad g => gesture g pad) gs pad.

Definition isMove (g : Gesture) : bool :=
  match g with Move _ _ => true | _ => false end.

(** The position of a pointer event on a canvas, [last] being the position
    kept by [lastPosRef]. *)
Definition position (rect : Rect) (e : Pointer) (last : Point) : Point :=
  match e with
  | Touches [] => last
  | Touches ((clientX, clientY) :: _) | Mouse clientX clientY =>
      {| x := (clientX - left rect)%float; y := (clientY - top rect)%float |}
  end.

(** The positions of a run of pointer events. *)
Fixpoint positions (last : Point) (es : list (Rect * Pointer)) : list Point :=
  match es with
  | [] => []
  | (rect, e) :: es' =>
      position rect e last :: positions (position rect e last) es'
  end.

Definition moves (es : list (Rect * Pointer)) : list Gesture :=
  map (fun m : Rect * Pointer => Move m.1 m.2) es.

(** The lines of one stroke through the points [ps], from [p]. *)
Fixpoint chain (p : Point) (ps : list Point) : list Mark :=
  match ps with
  | [] => []
  | q :: ps' => Line p q :: chain q ps'
  end.

(** A canvas of the default size with nothing on it, and its pad. *)
Definition blank : Element :=
  {| width := 300; height := 150; has2d := true; marks := [] |}.

Definition fresh : Pad :=
  {| canvasRef := Some blank; drawingRef := false;
     lastPosRef := {| x := 0; y := 0 |}; handed := 0 |}.

Definition corner : Rect := {| left := 10; top := 20 |}.

(** The marks on the pad's canvas, none when there is no canvas. *)
Definition ink (pad : Pad) : list Mark :=
  match canvasRef pad with
  | Some canvas => marks canvas
  | None => []
  end.

End MathCanvas.

(** * Properties *)

(** ** Tactics and facts about teardown *)

(** Case analysis on the three guarded statements at the head of
    [cleanup]. *)
Ltac cleanup_cases st :=
  unfold cleanup;
  destruct st as [?u [?cin ?cout [?a|] [?b|] ?cur ?srcs ?cv ?sess [?t|]] ?e];
  cbn [refs intervalRef audioContextInRef audioContextOutRef clearInterval
       closeContext setTimers setClosedContexts onEnv].

(** Running a sequence of field assignments on a state given by its
    fields. *)
Ltac run_setters :=
  cbv [cleanup stopSources closeContext clearInterval
       setStatus setTranscriptions setError setFinalGrade setIsGrading
       setActiveUserText setActiveModelText setCurrentInputRef
       setCurrentOutputRef setAudioContextInRef setAudioContextOutRef
       setNextStartTimeRef setSourcesRef setSessionRef setIntervalRef
       setContexts setClosedContexts setTimers setNextTimer setStarted
       setStopped setStrokes setConnections setToolResponses
       onUi onRefs onEnv ui refs env
       status transcriptions error rubric finalGrade isGrading
       activeUserText activeModelText
       currentInputRef currentOutputRef audioContextInRef audioContextOutRef
       nextStartTimeRef sourcesRef canvasRef sessionRef intervalRef
       contexts closedContexts timers nextTimer started stopped strokes
       connections toolResponses].

Lemma cleanup_ui (st : State) :
  finalGrade (ui (cleanup st)) = finalGrade (ui st)
  /\ error (ui (cleanup st)) = error (ui st)
  /\ isGrading (ui (cleanup st)) = isGrading (ui st)
  /\ transcriptions (ui (cleanup st)) = transcriptions (ui st).
Proof. cleanup_cases st; repeat split; reflexivity. Qed.

Lemma cleanup_done (st : State) :
  let st' := cleanup st in
  status (ui st') = IDLE
  /\ activeUserText (ui st') = [] /\ activeModelText (ui st') = []
  /\ currentInputRef (refs st') = [] /\ currentOutputRef (refs st') = []
  /\ sourcesRef (refs st') = ∅
  /\ sessionRef (refs st') = None
  /\ sourcesRef (refs st) ⊆ stopped (env st')
  /\ (forall t, intervalRef (refs st) = Some t -> t ∉ timers (env st'))
  /\ (forall c, audioContextInRef (refs st) = Some c ->
                c ∈ closedContexts (env st'))
  /\ (forall c, audioContextOutRef (refs st) = Some c ->
                c ∈ closedContexts (env st')).
Proof.
  cbn zeta. cleanup_cases st; cbn;
    repeat split; try reflexivity;
    try (intros ? ?; simplify_eq); set_solver.
Qed.

(** ** Strings *)

Example trim_blank : trim (lit "  ") = [].
Proof. reflexivity. Qed.

Example trim_ok : trim (lit "ok") = lit "ok".
Proof. reflexivity. Qed.

Example trim_inner : trim (lit "  a b  ") = lit "a b".
Proof. reflexivity. Qed.

Example trim_nbsp : trim [160; 97; 8233]%N = [97]%N.
Proof. reflexivity. Qed.

(** ** What a message leaves alone *)

(** All that the calls of a tool-call event do to the state is to stroke
    squares, and all that the branch does besides is to send its batch;
    that holds as well when the branch ends by an exception. *)

Lemma setStrokes_nil (st : State) :
  setStrokes (strokes (env st) ++ []) st = st.
Proof. destruct st as [u r []]. cbn. by rewrite app_nil_r. Qed.

Lemma setToolResponses_nil (st : State) :
  setToolResponses (toolResponses (env st) ++ []) st = st.
Proof. destruct st as [u r []]. cbn. by rewrite app_nil_r. Qed.

Lemma setStrokes_app (ss ss' : list Stroke) (st : State) :
  setStrokes (strokes (env (setStrokes (strokes (env st) ++ ss) st)) ++ ss')
             (setStrokes (strokes (env st) ++ ss) st) =
  setStrokes (strokes (env st) ++ ss ++ ss') st.
Proof. cbn. by rewrite <- app_assoc. Qed.

Lemma drawHighlightSquare_effects (a : DrawArgs) (st : State) :
  exists ss, drawHighlightSquare a st =
             setStrokes (strokes (env st) ++ ss) st.
Proof.
  unfold drawHighlightSquare.
  destruct (canvasRef (refs st)) as [c|]; [destruct (has2d c)|].
  - eexists [_]. reflexivity.
  - exists []. by rewrite setStrokes_nil.
  - exists []. by rewrite setStrokes_nil.
Qed.

Lemma respond_effects (fc : FunctionCall) (st st' : State)
    (r : FunctionResponse) :
  respond fc st = Some (st', r) ->
  exists ss, st' = setStrokes (strokes (env st) ++ ss) st.
Proof.
  unfold respond. destruct (bool_decide _).
  - destruct (fc_args fc) as [a|]; [|discriminate].
    intros [= <- _]. apply drawHighlightSquare_effects.
  - intros [= <- _]. exists []. by rewrite setStrokes_nil.
Qed.

Lemma respondAll_effects (fcs : list FunctionCall) (st : State) :
  exists ss, (respondAll fcs st).1 = setStrokes (strokes (env st) ++ ss) st.
Proof.
  revert st. induction fcs as [|fc fcs IH]; intros st; cbn [respondAll].
  - exists []. by rewrite setStrokes_nil.
  - destruct (respond fc st) as [[st1 r]|] eqn:E.
    + destruct (respond_effects fc st st1 r E) as [ss ->].
      destruct (IH (setStrokes (strokes (env st) ++ ss) st)) as [ss' H].
      destruct (respondAll fcs _) as [st2 rs]. cbn [fst] in H |- *.
      exists (ss ++ ss'). by rewrite H, setStrokes_app.
    + exists []. by rewrite setStrokes_nil.
Qed.

Lemma onToolCall_effects (session : nat) (tc : ToolCall) (st : State) :
  exists ss sent,
    stateOf (onToolCall session tc st) =
    setToolResponses (toolResponses (env st) ++ sent)
                     (setStrokes (strokes (env st) ++ ss) st).
Proof.
  unfold onToolCall. destruct (functionCalls tc) as [fcs|].
  - destruct (respondAll_effects fcs st) as [ss H].
    destruct (respondAll fcs st) as [st1 [rs|]]; cbn [fst] in H; subst st1.
    + destruct (0 <? length rs)%nat; cbn [stateOf].
      * exists ss, [(session, rs)]. reflexivity.
      * exists ss, []. symmetry. apply (setToolResponses_nil (setStrokes _ st)).
    + exists ss, []. symmetry. apply (setToolResponses_nil (setStrokes _ st)).
  - exists [], []. cbn [stateOf]. symmetry.
    rewrite setStrokes_nil. apply setToolResponses_nil.
Qed.

Lemma onToolCall_session (session : nat) (tc : ToolCall) (st : State) :
  status (ui (stateOf (onToolCall session tc st))) = status (ui st)
  /\ sessionRef (refs (stateOf (onToolCall session tc st))) =
       sessionRef (refs st)
  /\ isGrading (ui (stateOf (onToolCall session tc st))) =
       isGrading (ui st).
Proof.
  destruct (onToolCall_effects session tc st) as (ss & sent & ->). done.
Qed.

Lemma onServerContent_session (frames : JsString -> N) (now : Z)
    (content : option ServerContent) (st : State) :
  status (ui (onServerContent frames now content st)) = status (ui st)
  /\ sessionRef (refs (onServerContent frames now content st)) =
       sessionRef (refs st)
  /\ isGrading (ui (onServerContent frames now content st)) =
       isGrading (ui st).
Proof.
  unfold onServerContent. destruct content as [sc|]; [|done].
  assert (Ha : forall data,
             status (ui (onAudio frames now data st)) = status (ui st)
             /\ sessionRef (refs (onAudio frames now data st)) =
                  sessionRef (refs st)
             /\ isGrading (ui (onAudio frames now data st)) =
                  isGrading (ui st)).
  { intros data. unfold onAudio. destruct (truthy data); [|done].
    by destruct (audioContextOutRef (refs st)). }
  set (s1 := match audio sc with Some _ => _ | None => _ end).
  assert (H1 : status (ui s1) = status (ui st)
               /\ sessionRef (refs s1) = sessionRef (refs st)
               /\ isGrading (ui s1) = isGrading (ui st)).
  { subst s1. destruct (audio sc); [apply Ha|done]. }
  clearbody s1. destruct H1 as (<- & <- & <-). clear Ha.
  unfold onTurnComplete.
  destruct (turnComplete sc), (outputTranscription sc),
    (inputTranscription sc), (interrupted sc);
    try (destruct (0 <? _)%nat); repeat split; reflexivity.
Qed.

Lemma onmessage_session (session : nat) (frames : JsString -> N) (now : Z)
    (m : Message) (st : State) :
  status (ui (onmessage session frames now m st)) = status (ui st)
  /\ sessionRef (refs (onmessage session frames now m st)) =
       sessionRef (refs st)
  /\ isGrading (ui (onmessage session frames now m st)) =
       isGrading (ui st).
Proof.
  unfold onmessage.
  set (branch := match toolCall m with Some _ => _ | None => _ end).
  assert (H0 : status (ui (stateOf branch)) = status (ui st)
               /\ sessionRef (refs (stateOf branch)) = sessionRef (refs st)
               /\ isGrading (ui (stateOf branch)) = isGrading (ui st)).
  { subst branch. destruct (toolCall m); [apply onToolCall_session|done]. }
  clearbody branch. destruct branch as [s0|s0]; cbn [stateOf] in H0.
  - destruct H0 as (<- & <- & <-). apply onServerContent_session.
  - exact H0.
Qed.

(** Between two events no grading is under way. *)
Lemma reachable_not_grading (frames : JsString -> N)
    (parse : JsString -> option JsonValue) (init st : State) :
  isGrading (ui init) = false ->
  reachable frames parse init st -> isGrading (ui st) = false.
Proof.
  intros Hinit Hreach. induction Hreach as [|st ev Hreach IH Hoff]; [done|].
  destruct ev as [o| |o| |session now m| | |source]; cbn [deliver].
  - destruct o; [unfold startTutoring, startTutoring_catch ..| exact IH];
      match goal with
      | |- context [cleanup ?s] =>
          destruct (cleanup_ui s) as (_ & _ & -> & _); exact IH
      end.
  - by destruct (cleanup_ui st) as (_ & _ & -> & _).
  - unfold handleGradeAssignment. by destruct (canvasRef (refs st)).
  - exact IH.
  - by destruct (onmessage_session session frames now m st) as (_ & _ & ->).
  - unfold onerror.
    match goal with
    | |- context [cleanup ?s] =>
        destruct (cleanup_ui s) as (_ & _ & -> & _); exact IH
    end.
  - unfold onclose. by destruct (cleanup_ui st) as (_ & _ & -> & _).
  - exact IH.
Qed.

(** ** Turn completion *)

Lemma onTurnComplete_history (st : State) :
  transcriptions (ui (onTurnComplete st)) =
  transcriptions (ui st) ++
  historyToAppend (currentInputRef (refs st)) (currentOutputRef (refs st)).
Proof.
  unfold onTurnComplete.
  destruct (historyToAppend _ _) as [|e es] eqn:E; cbn.
  - by rewrite app_nil_r.
  - reflexivity.
Qed.

(** C1: a turn-complete event appends, for the Student buffer and then for
    the Mentor buffer, one entry with the trimmed text when that text is not
    empty and none when it is, and leaves both buffers empty. *)
Theorem turn_complete_commits (session : nat) (frames : JsString -> N)
    (now : Z) (st : State) :
  let st' := onmessage session frames now turnCompleteEvent st in
  let input := trim (currentInputRef (refs st)) in
  let output := trim (currentOutputRef (refs st)) in
  transcriptions (ui st') =
    transcriptions (ui st) ++
    match input, output with
    | [], [] => []
    | _ :: _, [] => [{| role := user; text := input |}]
    | [], _ :: _ => [{| role := model; text := output |}]
    | _ :: _, _ :: _ => [{| role := user; text := input |};
                         {| role := model; text := output |}]
    end
  /\ currentInputRef (refs st') = []
  /\ currentOutputRef (refs st') = []
  /\ activeUserText (ui st') = []
  /\ activeModelText (ui st') = [].
Proof.
  cbn zeta. unfold onmessage, onServerContent, turnCompleteEvent.
  cbn [toolCall serverContent audio interrupted inputTranscription
       outputTranscription turnComplete].
  rewrite onTurnComplete_history. unfold historyToAppend.
  split; [|by repeat split].
  f_equal.
  destruct (trim (currentInputRef (refs st)));
    destruct (trim (currentOutputRef (refs st))); reflexivity.
Qed.

(** A blank Student buffer and a Mentor buffer [ok]: one entry, the
    Mentor's. *)
Example turn_complete_blank_student :
  let frames := fun _ : JsString => 0%N in
  let st := onmessage 0 frames 0 (outputEvent (lit "ok"))
              (onmessage 0 frames 0 (inputEvent (lit "  ")) (live [])) in
  let st' := onmessage 0 frames 0 turnCompleteEvent st in
  currentInputRef (refs st) = lit "  "
  /\ currentOutputRef (refs st) = lit "ok"
  /\ transcriptions (ui st') = [{| role := model; text := lit "ok" |}]
  /\ currentInputRef (refs st') = [] /\ currentOutputRef (refs st') = []
  /\ activeUserText (ui st') = [] /\ activeModelText (ui st') = [].
Proof. cbn zeta. repeat split; reflexivity. Qed.

(** Two empty buffers: the history keeps its length. *)
Lemma turn_complete_silent (session : nat) (frames : JsString -> N)
    (now : Z) (st : State) :
  currentInputRef (refs st) = [] -> currentOutputRef (refs st) = [] ->
  length (transcriptions
            (ui (onmessage session frames now turnCompleteEvent st))) =
  length (transcriptions (ui st)).
Proof.
  intros Hi Ho.
  change (onmessage session frames now turnCompleteEvent st)
    with (onTurnComplete st).
  rewrite onTurnComplete_history, Hi, Ho. cbn. by rewrite app_nil_r.
Qed.

(** ** Interruption *)

Lemma onInterrupted_sources (st : State) :
  sourcesRef (refs (onInterrupted st)) = ∅
  /\ stopped (env (onInterrupted st)) = sourcesRef (refs st) ∪ stopped (env st)
  /\ nextStartTimeRef (refs (onInterrupted st)) = 0%Z
  /\ audioContextOutRef (refs (onInterrupted st)) = audioContextOutRef (refs st)
  /\ started (env (onInterrupted st)) = started (env st).
Proof. repeat split; reflexivity. Qed.

Lemma onAudio_started (frames : JsString -> N) (now : Z) (data : JsString)
    (st : State) :
  truthy data = true -> is_Some (audioContextOutRef (refs st)) ->
  let st' := onAudio frames now data st in
  let start := Z.max (nextStartTimeRef (refs st)) now in
  let source := length (started (env st)) in
  started (env st') =
    started (env st) ++
    [{| seg_node := source; seg_start := start;
        seg_duration := Z.of_N (frames data) |}]
  /\ nextStartTimeRef (refs st') = (start + Z.of_N (frames data))%Z
  /\ sourcesRef (refs st') = {[source]} ∪ sourcesRef (refs st)
  /\ audioContextOutRef (refs st') = audioContextOutRef (refs st).
Proof.
  intros Hd [c Hc]. cbn zeta. unfold onAudio. rewrite Hd, Hc. cbn.
  by rewrite Hc.
Qed.

(** C2, the claim as written fails: with the clock at frame 48000 an
    interruption leaves the cursor at 0, not at 48000. *)
Lemma interruption_cursor_is_not_now :
  let frames := fun _ : JsString => 24000%N in
  let st := onmessage 0 frames 0 (audioEvent (lit "AAAA")) (live []) in
  let st' := onmessage 0 frames 48000 interruptionEvent st in
  sourcesRef (refs st) = {[0]}
  /\ nextStartTimeRef (refs st') = 0%Z
  /\ nextStartTimeRef (refs st') <> 48000%Z.
Proof.
  cbn zeta. split; [|split]; [reflexivity | reflexivity | discriminate].
Qed.

(** C2, amended: an interruption event stops every pending segment, empties
    the pending set and puts the cursor back to 0; as the clock is never
    negative, the next segment that is enqueued starts at the reading of the
    clock at that moment. *)
Theorem interruption_clears_playback (session : nat)
    (frames : JsString -> N) (now : Z) (st : State) :
  let st' := onmessage session frames now interruptionEvent st in
  sourcesRef (refs st') = ∅
  /\ sourcesRef (refs st) ⊆ stopped (env st')
  /\ nextStartTimeRef (refs st') = 0%Z
  /\ forall (later : Z) (data : JsString),
       (0 <= later)%Z -> truthy data = true ->
       is_Some (audioContextOutRef (refs st)) ->
       started (env (onAudio frames later data st')) =
         started (env st) ++
         [{| seg_node := length (started (env st)); seg_start := later;
             seg_duration := Z.of_N (frames data) |}].
Proof.
  cbn zeta. unfold onmessage, onServerContent, interruptionEvent.
  cbn [toolCall serverContent audio interrupted inputTranscription
       outputTranscription turnComplete].
  destruct (onInterrupted_sources st) as (Hs & Hp & Hc & Ha & Hl).
  split; [exact Hs|]. split; [rewrite Hp; set_solver|]. split; [exact Hc|].
  intros later data Hlater Hd Hctx.
  rewrite <- Ha in Hctx.
  destruct (onAudio_started frames later data (onInterrupted st) Hd Hctx)
    as (H & _).
  cbn zeta in H. rewrite H, Hc, Hl. by rewrite Z.max_r.
Qed.

Lemma interruption_clears_playback_witness :
  let frames := fun _ : JsString => 24000%N in
  let st := onmessage 0 frames 0 (audioEvent (lit "AAAA")) (live []) in
  let st' := onmessage 0 frames 48000 interruptionEvent st in
  started (env (onAudio frames 50000 (lit "BBBB") st')) =
    started (env st) ++
    [{| seg_node := 1; seg_start := 50000; seg_duration := 24000 |}].
Proof.
  cbn zeta.
  apply (interruption_clears_playback 0 (fun _ => 24000%N) 48000
           (onmessage 0 (fun _ => 24000%N) 0 (audioEvent (lit "AAAA"))
              (live []))).
  - lia.
  - reflexivity.
  - vm_compute. eauto.
Defined.

(** ** Tool calls *)

Lemma respond_passes (fc : FunctionCall) (st : State) :
  passes fc = true ->
  exists st' r, respond fc st = Some (st', r) /\ answers fc r.
Proof.
  unfold passes, respond, answers.
  destruct (bool_decide _); cbn [negb orb].
  - destruct (fc_args fc) as [a|]; [|discriminate]. intros _.
    eexists _, _. split; [reflexivity|done].
  - intros _. eexists _, _. split; [reflexivity|done].
Qed.

Lemma respond_throws (fc : FunctionCall) (st : State) :
  passes fc = false -> respond fc st = None.
Proof.
  unfold passes, respond. destruct (bool_decide _); cbn [negb orb].
  - by destruct (fc_args fc).
  - discriminate.
Qed.

Lemma respondAll_answers (fcs : list FunctionCall) (st : State) :
  Forall (fun fc => passes fc = true) fcs ->
  exists rs, (respondAll fcs st).2 = Some rs /\ Forall2 answers fcs rs.
Proof.
  intros Hall. revert st.
  induction Hall as [|fc fcs Hfc _ IH]; intros st; cbn [respondAll].
  - exists []. split; [reflexivity|constructor].
  - destruct (respond_passes fc st Hfc) as (st1 & r & -> & Hr).
    destruct (IH st1) as (rs & Hrs & Hans).
    destruct (respondAll fcs st1) as [st2 rs']. cbn [snd] in Hrs |- *.
    subst rs'. exists (r :: rs). split; [reflexivity|by constructor].
Qed.

Lemma onToolCall_sends (session : nat) (fcs : list FunctionCall)
    (st : State) :
  fcs <> [] -> Forall (fun fc => passes fc = true) fcs ->
  exists st' batch,
    onToolCall session {| functionCalls := Some fcs |} st = Returns st'
    /\ toolResponses (env st') = toolResponses (env st) ++ [(session, batch)]
    /\ Forall2 answers fcs batch.
Proof.
  intros Hne Hall. unfold onToolCall. cbn [functionCalls].
  destruct (respondAll_answers fcs st Hall) as (rs & Hrs & Hans).
  destruct (respondAll_effects fcs st) as [ss Hst].
  destruct (respondAll fcs st) as [st1 rs']. cbn [fst snd] in Hrs, Hst.
  subst rs' st1. eexists _, rs. split; [reflexivity|]. split; [|exact Hans].
  destruct Hans as [|fc r fcs' rs' _ _]; [done|]. reflexivity.
Qed.

(** The branches for server content send nothing. *)
Lemma onAudio_toolResponses (frames : JsString -> N) (now : Z)
    (data : JsString) (st : State) :
  toolResponses (env (onAudio frames now data st)) = toolResponses (env st).
Proof.
  unfold onAudio. destruct (truthy data); [|done].
  by destruct (audioContextOutRef (refs st)).
Qed.

Lemma onTurnComplete_toolResponses (st : State) :
  toolResponses (env (onTurnComplete st)) = toolResponses (env st).
Proof. unfold onTurnComplete. by destruct (0 <? _)%nat. Qed.

Lemma onServerContent_toolResponses (frames : JsString -> N) (now : Z)
    (content : option ServerContent) (st : State) :
  toolResponses (env (onServerContent frames now content st)) =
  toolResponses (env st).
Proof.
  unfold onServerContent. destruct content as [sc|]; [|done].
  destruct (turnComplete sc); [rewrite onTurnComplete_toolResponses|];
    (destruct (outputTranscription sc);
     [change (toolResponses (env (onOutputTranscription ?t ?s)))
        with (toolResponses (env s))|]);
    (destruct (inputTranscription sc);
     [change (toolResponses (env (onInputTranscription ?t ?s)))
        with (toolResponses (env s))|]);
    (destruct (interrupted sc);
     [change (toolResponses (env (onInterrupted ?s)))
        with (toolResponses (env s))|]);
    (destruct (audio sc); [apply onAudio_toolResponses|reflexivity]).
Qed.

Lemma answers_inj (fc : FunctionCall) (r r' : FunctionResponse) :
  answers fc r -> answers fc r' -> r = r'.
Proof.
  destruct r, r'. unfold answers. cbn. intros (-> & -> & ->) (-> & -> & ->).
  reflexivity.
Qed.

(** C3, where the code departs from the claim: an event with a
    [draw_square] request that carries no [args] and a request for an
    unknown capability, in either order.  Destructuring the absent [args]
    throws, so the handler ends there: no batch is sent, neither request gets
    its result, and the server content of the same message is not looked at;
    the state is the one before the message.  The [map] has a result for
    every request, with an error tag for an unknown name, and has none for
    this request of a known name. *)
Theorem bare_draw_request_is_left_unanswered (session : nat)
    (frames : JsString -> N) (now : Z) (content : option ServerContent)
    (st : State) :
  let first := onmessage session frames now
                 (toolCallWith [bareDrawRequest; eraseRequest] content) st in
  let second := onmessage session frames now
                  (toolCallWith [eraseRequest; bareDrawRequest] content) st in
  fc_name bareDrawRequest = Some (lit "draw_square")
  /\ fc_name eraseRequest <> Some (lit "draw_square")
  /\ first = st /\ second = st
  /\ toolResponses (env first) = toolResponses (env st)
  /\ toolResponses (env second) = toolResponses (env st).
Proof.
  cbn zeta. split; [reflexivity|]. split; [discriminate|].
  repeat split; reflexivity.
Qed.

(** The same event on the live sample session with a turn-complete in the
    same message: nothing is sent, and the turn is not committed. *)
Example bare_draw_request_on_the_live_session :
  let frames := fun _ : JsString => 0%N in
  let st := onmessage 0 frames 0 (outputEvent (lit "ok")) (live []) in
  let st' := onmessage 0 frames 0
               (toolCallWith [bareDrawRequest; eraseRequest]
                  (serverContent turnCompleteEvent)) st in
  toolResponses (env st') = []
  /\ transcriptions (ui st') = []
  /\ currentOutputRef (refs st') = lit "ok".
Proof. cbn zeta. repeat split; reflexivity. Qed.

(** A request that throws after a served [draw_square] request: the square
    is drawn, and no batch is sent for either. *)
Example bare_draw_request_after_a_square :
  let st' := onmessage 0 (fun _ => 0%N) 0
               (toolCallEvent [drawRequest; bareDrawRequest]) (live []) in
  strokes (env st') = [{| sx := 360; sy := 260; sw := 80; sh := 80 |}]
  /\ toolResponses (env st') = [].
Proof. cbn zeta. split; reflexivity. Qed.

(** A tool call without its list of calls: the [map] throws at once. *)
Example tool_call_without_calls (session : nat) (frames : JsString -> N)
    (now : Z) (content : option ServerContent) (st : State) :
  onmessage session frames now
    {| toolCall := Some {| functionCalls := None |};
       serverContent := content |} st = st.
Proof. reflexivity. Qed.

(** X23: a tool-call event with at least one request, each [draw_square]
    request of which carries its [args], is answered by one outbound
    message, whose batch holds one result per request, in order, with the
    identifier and the name of that request and the payload [ok] for
    [draw_square], an error tag for any other name; for one [draw_square]
    request and one request of another name the batch has the two results,
    in the order of the requests. *)
Theorem tool_call_answered (session : nat) (frames : JsString -> N)
    (now : Z) (m : Message) (st : State) (fcs : list FunctionCall) :
  toolCall m = Some {| functionCalls := Some fcs |} -> fcs <> [] ->
  Forall (fun fc => passes fc = true) fcs ->
  exists batch,
    toolResponses (env (onmessage session frames now m st)) =
      toolResponses (env st) ++ [(session, batch)]
    /\ length batch = length fcs
    /\ Forall2 answers fcs batch
    /\ forall d u,
         fc_name d = Some (lit "draw_square") ->
         fc_name u <> Some (lit "draw_square") ->
         let ok := {| fr_id := fc_id d; fr_name := fc_name d;
                      fr_result := lit "ok" |} in
         let err := {| fr_id := fc_id u; fr_name := fc_name u;
                       fr_result := lit "error: tool not found" |} in
         (fcs = [d; u] -> batch = [ok; err])
         /\ (fcs = [u; d] -> batch = [err; ok]).
Proof.
  intros Hm Hne Hall.
  destruct (onToolCall_sends session fcs st Hne Hall)
    as (st1 & batch & Hret & Hsent & Hans).
  exists batch. split; [|split; [|split]].
  - unfold onmessage. rewrite Hm, Hret.
    by rewrite onServerContent_toolResponses.
  - symmetry. eapply Forall2_length, Hans.
  - exact Hans.
  - intros d u Hd Hu ok err.
    assert (Hok : answers d ok).
    { unfold answers, ok. cbn. by rewrite bool_decide_eq_true_2. }
    assert (Herr : answers u err).
    { unfold answers, err. cbn. by rewrite bool_decide_eq_false_2. }
    split; intros ->.
    + inversion Hans as [|? r1 ? rs1 H1 Hrest]; subst.
      inversion Hrest as [|? r2 ? rs2 H2 Hnil]; subst.
      inversion Hnil; subst.
      by rewrite (answers_inj d r1 ok), (answers_inj u r2 err).
    + inversion Hans as [|? r1 ? rs1 H1 Hrest]; subst.
      inversion Hrest as [|? r2 ? rs2 H2 Hnil]; subst.
      inversion Hnil; subst.
      by rewrite (answers_inj u r1 err), (answers_inj d r2 ok).
Qed.

Lemma tool_call_answered_witness :
  exists batch,
    toolResponses
      (env (onmessage 0 (fun _ => 0%N) 0
              (toolCallEvent [drawRequest; eraseRequest]) (live []))) =
      [(0, batch)]
    /\ batch =
       [{| fr_id := Some (lit "call-1"); fr_name := Some (lit "draw_square");
           fr_result := lit "ok" |};
        {| fr_id := Some (lit "call-2"); fr_name := Some (lit "erase_all");
           fr_result := lit "error: tool not found" |}].
Proof.
  destruct (tool_call_answered 0 (fun _ => 0%N) 0
              (toolCallEvent [drawRequest; eraseRequest]) (live [])
              [drawRequest; eraseRequest] eq_refl)
    as (batch & Hsent & _ & _ & Hpair);
    [discriminate | repeat constructor |].
  exists batch. split; [exact Hsent|].
  apply (Hpair drawRequest eraseRequest); [reflexivity | discriminate | reflexivity].
Defined.

(** The square of the sample request, on the 800 by 600 board. *)
Example draw_square_strokes :
  strokes (env (onmessage 0 (fun _ => 0%N) 0
                  (toolCallEvent [drawRequest; eraseRequest]) (live []))) =
  [{| sx := 360; sy := 260; sw := 80; sh := 80 |}].
Proof. reflexivity. Qed.

(** ** The system instruction *)

Lemma hasRubric_trim (r : JsString) :
  hasRubric r = match trim r with [] => false | _ :: _ => true end.
Proof.
  unfold hasRubric. destruct r as [|c r]; [reflexivity|].
  cbn [truthy andb]. by destruct (trim (c :: r)).
Qed.

(** C4: the instruction sent at session start is the base text followed by
    one behaviour clause: for a rubric that is not empty after trimming the
    clause to greet and pose the problem, then the rubric under its heading;
    for a rubric that is empty after trimming the clause to wait for the
    student, and nothing of the rubric. *)
Theorem instruction_by_rubric (st : State) :
  let r := rubric (ui st) in
  connections (env (startTutoring ConnectOpens st)) =
    connections (env st) ++ [finalInstruction r]
  /\ finalInstruction r =
       BASE_SYSTEM_INSTRUCTION ++ nl ++ nl ++
       match trim r with
       | _ :: _ => GREET_CLAUSE ++ nl ++ nl ++ RUBRIC_HEADER ++ r
       | [] => WAIT_CLAUSE ++ nl ++ nl
       end
  /\ GREET_CLAUSE <> WAIT_CLAUSE.
Proof.
  cbn zeta. split; [reflexivity|]. split; [|discriminate].
  unfold finalInstruction, behaviorInstruction.
  rewrite hasRubric_trim.
  destruct (trim (rubric (ui st))); [by rewrite app_nil_r|reflexivity].
Qed.

(** With a blank rubric the instruction has the waiting clause and neither
    the greeting clause nor the rubric heading; with the rubric [2x = 10] it
    has the greeting clause and the rubric, and not the waiting clause. *)
Example instruction_blank_rubric :
  let i := finalInstruction (lit "   ") in
  includes WAIT_CLAUSE i = true /\ includes GREET_CLAUSE i = false
  /\ includes RUBRIC_HEADER i = false.
Proof. vm_compute. done. Qed.

Example instruction_some_rubric :
  let i := finalInstruction (lit "2x = 10") in
  includes GREET_CLAUSE i = true /\ includes WAIT_CLAUSE i = false
  /\ includes (RUBRIC_HEADER ++ lit "2x = 10") i = true.
Proof. vm_compute. done. Qed.

(** ** Playback scheduling *)

Section Schedule.

Variable frames : JsString -> N.

Local Abbreviation total := (total frames).
Local Abbreviation scheduled := (scheduled frames).
Local Abbreviation onTime := (onTime frames).

Lemma scheduled_no_overlap cursor arrivals segs final :
  scheduled cursor arrivals segs final ->
  forall i g h, segs !! i = Some g -> segs !! S i = Some h ->
                (seg_end g <= seg_start h)%Z.
Proof.
  revert cursor segs.
  induction arrivals as [|a arrivals IH]; intros cursor [|g0 segs]; cbn;
    try done.
  intros (_ & _ & Hrest) i g h Hg Hh.
  destruct i as [|i]; cbn in Hg, Hh.
  - injection Hg as ->.
    destruct arrivals as [|b arrivals], segs as [|h0 segs]; cbn in Hrest;
      try done.
    cbn in Hh. injection Hh as ->. destruct Hrest as (-> & _). lia.
  - eapply IH; eauto.
Qed.

Lemma scheduled_final cursor arrivals segs final :
  scheduled cursor arrivals segs final ->
  (cursor + total arrivals <= final)%Z
  /\ (final = (cursor + total arrivals)%Z <-> onTime cursor arrivals).
Proof.
  revert cursor segs.
  induction arrivals as [|a arrivals IH]; intros cursor [|g segs]; cbn;
    try done.
  - intros ->. split; [lia|]. split; [done|lia].
  - intros (Hs & Hd & Hrest).
    destruct (IH _ _ Hrest) as [Hle Hiff].
    unfold seg_end in *. rewrite Hs, Hd in *.
    fold (total arrivals).
    split; [lia|]. split.
    + intros Hf.
      assert (Z.max cursor a.1 = cursor) as Hmax by lia.
      rewrite Hmax in Hiff. split; [lia|]. apply Hiff. lia.
    + intros [Hnow Hon].
      rewrite Z.max_l in Hiff by lia. apply Hiff in Hon. lia.
Qed.

Lemma onmessage_audioEvent session now data st :
  onmessage session frames now (audioEvent data) st =
  onAudio frames now data st.
Proof. reflexivity. Qed.

Lemma enqueueAll_scheduled session arrivals st :
  is_Some (audioContextOutRef (refs st)) ->
  Forall (fun a => truthy a.2 = true) arrivals ->
  let st' := enqueueAll session frames arrivals st in
  exists segs,
    started (env st') = started (env st) ++ segs
    /\ scheduled (nextStartTimeRef (refs st)) arrivals segs
                 (nextStartTimeRef (refs st'))
    /\ (forall g, g ∈ segs -> seg_node g ∈ sourcesRef (refs st'))
    /\ sourcesRef (refs st) ⊆ sourcesRef (refs st').
Proof.
  cbn zeta. revert st.
  induction arrivals as [|a arrivals IH]; intros st Hctx Hall.
  - exists []. cbn. rewrite app_nil_r. repeat split; [|done].
    intros g Hg. by apply elem_of_nil in Hg.
  - apply Forall_cons in Hall as [Ha Hall].
    cbn [enqueueAll fold_left]. rewrite onmessage_audioEvent.
    destruct (onAudio_started frames a.1 a.2 st Ha Hctx)
      as (Hst & Hcur & Hsrc & Hc).
    cbn zeta in Hst, Hcur, Hsrc.
    set (st1 := onAudio frames a.1 a.2 st) in *. clearbody st1.
    destruct (IH st1) as (segs & Hst' & Hsch & Hin & Hsub);
      [by rewrite Hc | done |].
    fold (enqueueAll session frames arrivals st1).
    eexists (_ :: segs). split; [|split; [|split]].
    + rewrite Hst', Hst, <- app_assoc. reflexivity.
    + cbn. split; [reflexivity|]. split; [reflexivity|].
      unfold seg_end. cbn. by rewrite <- Hcur.
    + intros g Hg. apply elem_of_cons in Hg as [->|Hg]; [|by apply Hin].
      cbn. apply Hsub. rewrite Hsrc.
      by apply elem_of_union_l, elem_of_singleton.
    + intros n Hn. apply Hsub. rewrite Hsrc. by apply elem_of_union_r.
Qed.

End Schedule.

(** C5, the claim as written fails: a second of audio enqueued at frame 0
    and another enqueued at frame 120000, when the first has long finished,
    end at frame 144000 and not at 0 + 24000 + 24000. *)
Lemma late_segment_breaks_cumulative_end :
  let frames := fun _ : JsString => 24000%N in
  let arrivals := [(0%Z, lit "AAAA"); (120000%Z, lit "BBBB")] in
  let st' := enqueueAll 0 frames arrivals (live []) in
  started (env st') =
    [{| seg_node := 0; seg_start := 0; seg_duration := 24000 |};
     {| seg_node := 1; seg_start := 120000; seg_duration := 24000 |}]
  /\ nextStartTimeRef (refs st') = 144000%Z
  /\ nextStartTimeRef (refs st') <> (0 + total frames arrivals)%Z.
Proof.
  cbn zeta. split; [reflexivity|]. split; [reflexivity|]. discriminate.
Qed.

(** C5, amended: of audio segments enqueued one after the other with no
    interruption in between, each starts at the later of the cursor and the
    clock and moves the cursor to its end, so a segment never starts before
    the one ahead of it has ended; the cursor after the last one is at least
    the first start time plus the sum of the durations, and is equal to it
    exactly when no later segment is enqueued with the clock already past
    the cursor; each segment is in the pending set once enqueued, and its
    [ended] listener takes it out. *)
Theorem playback_is_chained (session : nat) (frames : JsString -> N)
    (st : State) (a : Z * JsString) (rest : list (Z * JsString)) :
  is_Some (audioContextOutRef (refs st)) ->
  Forall (fun a => truthy a.2 = true) (a :: rest) ->
  let st' := enqueueAll session frames (a :: rest) st in
  let first := Z.max (nextStartTimeRef (refs st)) a.1 in
  exists segs,
    started (env st') = started (env st) ++ segs
    /\ scheduled frames (nextStartTimeRef (refs st)) (a :: rest) segs
                 (nextStartTimeRef (refs st'))
    /\ (forall i g h, segs !! i = Some g -> segs !! S i = Some h ->
                      (seg_end g <= seg_start h)%Z)
    /\ (first + total frames (a :: rest) <= nextStartTimeRef (refs st'))%Z
    /\ (nextStartTimeRef (refs st') = (first + total frames (a :: rest))%Z
        <-> onTime frames (first + Z.of_N (frames a.2)) rest)
    /\ (forall g, g ∈ segs ->
          seg_node g ∈ sourcesRef (refs st')
          /\ sourcesRef (refs (onEnded (seg_node g) st')) =
               sourcesRef (refs st') ∖ {[seg_node g]}).
Proof.
  intros Hctx Hall. cbn zeta.
  destruct (enqueueAll_scheduled frames session (a :: rest) st Hctx Hall)
    as (segs & Hst & Hsch & Hin & _).
  cbn zeta in Hst, Hsch, Hin.
  exists segs. split; [exact Hst|]. split; [exact Hsch|].
  split; [exact (scheduled_no_overlap frames _ _ _ _ Hsch)|].
  assert (Htail : (Z.max (nextStartTimeRef (refs st)) a.1 +
                   total frames (a :: rest)
                   <= nextStartTimeRef (refs (enqueueAll session frames
                                                (a :: rest) st)))%Z
                  /\ (nextStartTimeRef (refs (enqueueAll session frames
                                                (a :: rest) st)) =
                      (Z.max (nextStartTimeRef (refs st)) a.1 +
                       total frames (a :: rest))%Z
                      <-> onTime frames
                            (Z.max (nextStartTimeRef (refs st)) a.1 +
                             Z.of_N (frames a.2)) rest)).
  { destruct segs as [|g segs]; [done|].
    cbn [scheduled] in Hsch. destruct Hsch as (Hs & Hd & Hrest).
    unfold seg_end in Hrest. rewrite Hs, Hd in Hrest.
    destruct (scheduled_final frames _ _ _ _ Hrest) as [Hle Hiff].
    cbn [total foldr]. fold (total frames rest).
    split; [lia|]. rewrite <- Hiff. lia. }
  destruct Htail as [Hle Hiff].
  split; [exact Hle|]. split; [exact Hiff|].
  intros g Hg. split; [by apply Hin|reflexivity].
Qed.

Lemma playback_is_chained_witness :
  let frames := fun _ : JsString => 24000%N in
  let arrivals := [(0%Z, lit "AAAA"); (1000%Z, lit "BBBB")] in
  exists segs,
    started (env (enqueueAll 0 frames arrivals (live []))) = [] ++ segs
    /\ (nextStartTimeRef (refs (enqueueAll 0 frames arrivals (live []))) =
        0 + (24000 + (24000 + 0)))%Z.
Proof.
  cbn zeta.
  destruct (playback_is_chained 0 (fun _ => 24000%N) (live [])
              (0%Z, lit "AAAA") [(1000%Z, lit "BBBB")])
    as (segs & Hst & _ & _ & _ & Hiff & _).
  - vm_compute. eauto.
  - repeat constructor.
  - exists segs. split; [exact Hst|].
    apply Hiff. cbn. lia.
Defined.

(** ** Grading *)

Lemma grading_store_ok (parse : JsString -> option JsonValue)
    (text : option JsString) (st : State) (result : JsonValue)
    (g f : option JsonValue) :
  parse (orElse text (lit "{}")) = Some result ->
  readField result (lit "grade") = Some g ->
  readField result (lit "feedback") = Some f ->
  let report := {| grade := orPlaceholder g GRADE_PLACEHOLDER;
                   feedback := orPlaceholder f FEEDBACK_PLACEHOLDER |} in
  grading_store parse text st = cleanup (setFinalGrade (Some report) st).
Proof. intros Hp Hg Hf. unfold grading_store. by rewrite Hp, Hg, Hf. Qed.

Lemma readField_undefined (result : JsonValue) (k k' : JsString) :
  readField result k = Some None -> exists g, readField result k' = Some g.
Proof. destruct result; cbn; try discriminate; eauto. Qed.

(** C6, where the code departs from the claim: the body [null].  It parses
    and the value has no [feedback] field, but it has no fields to read at
    all: reading [result.grade] throws, the [catch] block takes over, and
    the run ends with no report stored and with the failure message where
    the placeholders were meant to be; the session is not torn down.  The
    fallbacks of the same statements, [response.text || '{}'] and
    [result.feedback || ...], default every other absent part.  The grading
    flag is back to false, as the claim says. *)
Theorem grading_null_body_stores_no_report
    (parse : JsString -> option JsonValue) (st : State) :
  is_Some (canvasRef (refs st)) ->
  parse (lit "null") = Some JNull ->
  let st' := handleGradeAssignment parse (Responds (Some (lit "null"))) st in
  finalGrade (ui st') = finalGrade (ui st)
  /\ error (ui st') = Some (lit "Grading process failed. Please try again.")
  /\ status (ui st') = status (ui st)
  /\ sessionRef (refs st') = sessionRef (refs st)
  /\ isGrading (ui st') = false.
Proof.
  intros [c Hc] Hparse. cbn zeta.
  unfold handleGradeAssignment, grading_store. rewrite Hc.
  change (orElse (Some (lit "null")) (lit "{}")) with (lit "null").
  rewrite Hparse. cbn [readField]. repeat split; reflexivity.
Qed.

Lemma grading_null_body_stores_no_report_witness :
  let st' := handleGradeAssignment parseSample (Responds (Some (lit "null")))
               (live []) in
  finalGrade (ui st') = None
  /\ error (ui st') = Some (lit "Grading process failed. Please try again.")
  /\ status (ui st') = CONNECTED
  /\ sessionRef (refs st') = Some 0%nat
  /\ isGrading (ui st') = false.
Proof.
  cbn zeta.
  apply (grading_null_body_stores_no_report parseSample (live [])).
  - vm_compute. eauto.
  - reflexivity.
Defined.

(** X24: when the body of the response parses and reading [feedback] from
    the result gives undefined (so the result is not [null], which has no
    fields to read), the report is stored with the placeholder as its
    feedback and the failure path is not taken; and whenever the routine
    goes ahead (a canvas is there), the grading flag is false at its end,
    whatever came back.  Without a canvas the routine returns at once and
    changes nothing, so in every state reached from the mounted component
    the flag is false at its end in that case too. *)
Theorem grading_placeholder_and_flag (frames : JsString -> N)
    (parse : JsString -> option JsonValue) (st : State) :
  (forall text result,
     is_Some (canvasRef (refs st)) ->
     parse (orElse text (lit "{}")) = Some result ->
     readField result (lit "feedback") = Some None ->
     let st' := handleGradeAssignment parse (Responds text) st in
     (exists g,
        readField result (lit "grade") = Some g
        /\ finalGrade (ui st') =
             Some {| grade := orPlaceholder g GRADE_PLACEHOLDER;
                     feedback := JString FEEDBACK_PLACEHOLDER |})
     /\ error (ui st') = error (ui st)
     /\ isGrading (ui st') = false)
  /\ (forall o, is_Some (canvasRef (refs st)) ->
                isGrading (ui (handleGradeAssignment parse o st)) = false)
  /\ (forall o, canvasRef (refs st) = None ->
                handleGradeAssignment parse o st = st)
  /\ (forall o r c,
        reachable frames parse (mounted r c) st ->
        isGrading (ui (handleGradeAssignment parse o st)) = false).
Proof.
  split; [|split; [|split]].
  - intros text result [c Hc] Hparse Hf. cbn zeta.
    destruct (readField_undefined result _ (lit "grade") Hf) as [g Hg].
    unfold handleGradeAssignment. rewrite Hc.
    cbn [ui setIsGrading onUi finalGrade error isGrading].
    rewrite (grading_store_ok parse text _ result g None Hparse Hg Hf).
    cbn zeta.
    match goal with
    | |- context [cleanup ?s] =>
        destruct (cleanup_ui s) as (-> & -> & _ & _)
    end.
    split; [|split; reflexivity].
    exists g. split; [exact Hg|reflexivity].
  - intros o [c Hc]. unfold handleGradeAssignment. by rewrite Hc.
  - intros o Hc. unfold handleGradeAssignment. by rewrite Hc.
  - intros o r c Hreach.
    apply reachable_not_grading in Hreach; [|reflexivity].
    unfold handleGradeAssignment. by destruct (canvasRef (refs st)).
Qed.

Lemma grading_placeholder_and_flag_witness :
  let st' := handleGradeAssignment parseSample (Responds (Some gradeOnlyBody))
               (live []) in
  (exists g,
     readField (JObject [(lit "grade", JString (lit "A"))]) (lit "grade") =
       Some g
     /\ finalGrade (ui st') =
          Some {| grade := orPlaceholder g GRADE_PLACEHOLDER;
                  feedback := JString FEEDBACK_PLACEHOLDER |})
  /\ error (ui st') = None
  /\ isGrading (ui st') = false.
Proof.
  cbn zeta.
  destruct (grading_placeholder_and_flag (fun _ => 0%N) parseSample (live []))
    as (H & _).
  apply (H (Some gradeOnlyBody)
           (JObject [(lit "grade", JString (lit "A"))])).
  - vm_compute. eauto.
  - reflexivity.
  - reflexivity.
Defined.

(** The sample report, and the three other ways a grading run can end. *)
Example grading_grade_only :
  let st' := handleGradeAssignment parseSample (Responds (Some gradeOnlyBody))
               (live []) in
  finalGrade (ui st') =
    Some {| grade := JString (lit "A");
            feedback := JString (lit "Could not generate feedback.") |}
  /\ status (ui st') = IDLE /\ isGrading (ui st') = false.
Proof. cbn zeta. repeat split; reflexivity. Qed.

Example grading_no_text :
  let st' := handleGradeAssignment parseSample (Responds None) (live []) in
  finalGrade (ui st') =
    Some {| grade := JString (lit "N/A");
            feedback := JString (lit "Could not generate feedback.") |}
  /\ isGrading (ui st') = false.
Proof. cbn zeta. repeat split; reflexivity. Qed.

Example grading_null_body :
  let st' := handleGradeAssignment parseSample (Responds (Some (lit "null")))
               (live []) in
  finalGrade (ui st') = None
  /\ error (ui st') = Some (lit "Grading process failed. Please try again.")
  /\ status (ui st') = CONNECTED /\ isGrading (ui st') = false.
Proof. cbn zeta. repeat split; reflexivity. Qed.

Example grading_request_fails :
  let st' := handleGradeAssignment parseSample RequestFails (live []) in
  finalGrade (ui st') = None
  /\ error (ui st') = Some (lit "Grading process failed. Please try again.")
  /\ status (ui st') = CONNECTED /\ isGrading (ui st') = false.
Proof. cbn zeta. repeat split; reflexivity. Qed.

(** ** Teardown and start *)

(** C7: when the microphone is refused, [startTutoring] ends with the error
    message set and with the teardown done (timer cancelled, both audio
    contexts closed, pending audio stopped and cleared, session dropped,
    buffers emptied), but with the status [IDLE]: the [setStatus (ERROR)] of
    the [catch] block is overwritten by the [setStatus (IDLE)] of the
    [cleanup] that follows it. *)
Theorem microphone_failure_ends_idle (message : option JsString)
    (st : State) :
  let st' := startTutoring (MicrophoneFails message) st in
  status (ui st') = IDLE
  /\ status (ui st') <> ERROR
  /\ error (ui st') =
       Some (orElse message (lit "Failed to initialize session."))
  /\ match intervalRef (refs st) with
     | Some t => t ∉ timers (env st')
     | None => True
     end
  /\ contexts (env st) ∈ closedContexts (env st')
  /\ S (contexts (env st)) ∈ closedContexts (env st')
  /\ sourcesRef (refs st) ⊆ stopped (env st')
  /\ sourcesRef (refs st') = ∅
  /\ sessionRef (refs st') = None
  /\ currentInputRef (refs st') = [] /\ currentOutputRef (refs st') = []
  /\ activeUserText (ui st') = [] /\ activeModelText (ui st') = [].
Proof.
  cbn zeta. unfold startTutoring, startTutoring_catch.
  match goal with
  | |- context [cleanup ?s] =>
      destruct (cleanup_done s)
        as (Hst & Hau & Ham & Hci & Hco & Hsrc & Hse & Hstop & Ht & Hin & Hout);
      destruct (cleanup_ui s) as (_ & Herr & _ & _)
  end.
  cbn zeta in *.
  rewrite Hst, Herr, Hau, Ham, Hci, Hco, Hsrc, Hse.
  repeat split; try done.
  - change (intervalRef (refs _)) with (intervalRef (refs st)) in Ht.
    destruct (intervalRef (refs st)) as [t|]; [by apply Ht|done].
  - by apply Hin.
  - by apply Hout.
Qed.

Example microphone_refused :
  let st' := startTutoring (MicrophoneFails (Some (lit "Permission denied")))
               (mounted [] (Some board)) in
  status (ui st') = IDLE
  /\ error (ui st') = Some (lit "Permission denied")
  /\ closedContexts (env st') = {[0; 1]}.
Proof. cbn zeta. repeat split; reflexivity. Qed.

(** C9: a second teardown changes nothing of what the first one left, from
    any state, and what it left has the status [IDLE], both buffers empty
    and no pending segment. *)
Theorem cleanup_idempotent (st : State) :
  cleanup (cleanup st) = cleanup st
  /\ status (ui (cleanup st)) = IDLE
  /\ activeUserText (ui (cleanup st)) = []
  /\ activeModelText (ui (cleanup st)) = []
  /\ currentInputRef (refs (cleanup st)) = []
  /\ currentOutputRef (refs (cleanup st)) = []
  /\ sourcesRef (refs (cleanup st)) = ∅.
Proof.
  destruct (cleanup_done st) as (Hst & Hau & Ham & Hci & Hco & Hsrc & _).
  split; [|by repeat split].
  clear. cleanup_cases st; run_setters; do 2 f_equal; set_solver.
Qed.

(** C10: the statements of [startTutoring] that come before any wait clear
    the error message, the stored report and the history, with no session
    opened yet; whatever the waits come back with, the history and the
    report are empty at the end, and so is the error message when the
    session opens.  [cleanup], for its part, keeps the history. *)
Theorem start_resets_outputs (st : State) :
  let st0 := startTutoring_begin st in
  error (ui st0) = None
  /\ finalGrade (ui st0) = None
  /\ transcriptions (ui st0) = []
  /\ connections (env st0) = connections (env st)
  /\ (forall o, transcriptions (ui (startTutoring o st)) = []
               /\ finalGrade (ui (startTutoring o st)) = None)
  /\ error (ui (startTutoring ConnectOpens st)) = None
  /\ transcriptions (ui (cleanup st)) = transcriptions (ui st).
Proof.
  cbn zeta. repeat split; try reflexivity.
  - destruct o; try reflexivity; unfold startTutoring, startTutoring_catch;
      match goal with
      | |- context [cleanup ?s] =>
          by destruct (cleanup_ui s) as (_ & _ & _ & ->)
      end.
  - destruct o; try reflexivity; unfold startTutoring, startTutoring_catch;
      match goal with
      | |- context [cleanup ?s] =>
          by destruct (cleanup_ui s) as (-> & _ & _ & _)
      end.
  - by destruct (cleanup_ui st) as (_ & _ & _ & ->).
Qed.

(** A second session starts from an empty history. *)
Example second_session_starts_empty :
  let frames := fun _ : JsString => 0%N in
  let st := onmessage 0 frames 0 turnCompleteEvent
              (onmessage 0 frames 0 (inputEvent (lit "hello")) (live [])) in
  transcriptions (ui st) = [{| role := user; text := lit "hello" |}]
  /\ transcriptions (ui (cleanup st)) =
       [{| role := user; text := lit "hello" |}]
  /\ transcriptions (ui (startTutoring ConnectOpens (cleanup st))) = [].
Proof. cbn zeta. repeat split; reflexivity. Qed.

(** ** One session at a time *)

Lemma handleGradeAssignment_session (parse : JsString -> option JsonValue)
    (o : GradeOutcome) (st : State) :
  let st' := handleGradeAssignment parse o st in
  sessionRef (refs st') = None
  \/ (status (ui st') = status (ui st)
      /\ sessionRef (refs st') = sessionRef (refs st)).
Proof.
  cbn zeta. unfold handleGradeAssignment.
  destruct (canvasRef (refs st)); [|by right].
  destruct o as [|text]; [by right|].
  unfold grading_store.
  destruct (parse _) as [result|]; [|by right].
  destruct (readField result (lit "grade")); [|by right].
  destruct (readField result (lit "feedback")); [|by right].
  left.
  match goal with
  | |- context [cleanup ?s] =>
      by destruct (cleanup_done s) as (_ & _ & _ & _ & _ & _ & H & _)
  end.
Qed.

(** Whenever the start control is offered in a state reached from the
    mounted component, no session is held. *)
Lemma offered_start_has_no_session (frames : JsString -> N)
    (parse : JsString -> option JsonValue) (init st : State) :
  sessionRef (refs init) = None ->
  reachable frames parse init st ->
  startOffered st = true -> sessionRef (refs st) = None.
Proof.
  intros Hinit Hreach. induction Hreach as [|st ev Hreach IH Hoff].
  - done.
  - destruct ev as [o| |o| |session now m| | |source]; cbn [deliver offered] in *.
    + destruct o; intros Hs;
        [ unfold startTutoring, startTutoring_catch ..| discriminate Hs ];
        match goal with
        | |- context [cleanup ?s] =>
            by destruct (cleanup_done s) as (_ & _ & _ & _ & _ & _ & H & _)
        end.
    + intros _.
      by destruct (cleanup_done st) as (_ & _ & _ & _ & _ & _ & H & _).
    + intros Hs.
      destruct (handleGradeAssignment_session parse o st) as [H|[H1 H2]];
        [exact H|].
      cbn zeta in H1, H2. rewrite H2. apply IH.
      unfold startOffered in *. by rewrite <- H1.
    + discriminate.
    + destruct (onmessage_session session frames now m st) as (H1 & H2 & _).
      intros Hs. rewrite H2. apply IH. unfold startOffered in *.
      by rewrite <- H1.
    + intros _. unfold onerror.
      match goal with
      | |- context [cleanup ?s] =>
          by destruct (cleanup_done s) as (_ & _ & _ & _ & _ & _ & H & _)
      end.
    + intros _. unfold onclose.
      by destruct (cleanup_done st) as (_ & _ & _ & _ & _ & _ & H & _).
    + exact IH.
Qed.

(** C8, the claim as written fails: [startTutoring] run on a connected
    component, which holds session 0, opens session 1 next to it. *)
Lemma start_opens_second_session :
  let st := live [] in
  let st' := startTutoring ConnectOpens st in
  status (ui st) = CONNECTED
  /\ sessionRef (refs st) = Some 0
  /\ length (connections (env st)) = 1
  /\ length (connections (env st')) = 2
  /\ sessionRef (refs st') = Some 1.
Proof. cbn zeta. repeat split; reflexivity. Qed.

(** C8, amended: [startTutoring] does not look at the status or at the
    session it holds; whenever its connect succeeds it opens one more
    session and puts it in [sessionRef].  What keeps a start away from a
    live session is the start control: it is offered only under the status
    [IDLE] or [ERROR], not under [CONNECTING] or [CONNECTED], and in every
    state reached from the mounted component through the controls and the
    callbacks no session is held while it is offered. *)
Theorem start_is_kept_out_by_the_control (frames : JsString -> N)
    (parse : JsString -> option JsonValue) (st : State) :
  (startOffered st = true
   <-> status (ui st) = IDLE \/ status (ui st) = ERROR)
  /\ length (connections (env (startTutoring ConnectOpens st))) =
       S (length (connections (env st)))
  /\ sessionRef (refs (startTutoring ConnectOpens st)) =
       Some (length (connections (env st)))
  /\ (forall r c,
        reachable frames parse (mounted r c) st ->
        startOffered st = true -> sessionRef (refs st) = None).
Proof.
  split; [|split; [|split]].
  - unfold startOffered. destruct (status (ui st)); split; intros H;
      try discriminate H; try (by left); try (by right);
      by destruct H.
  - cbn. by rewrite length_app, Nat.add_comm.
  - reflexivity.
  - intros r c. by apply offered_start_has_no_session.
Qed.

(** A session is started, opens, and is disconnected: the start control is
    back and no session is held. *)
Lemma start_is_kept_out_by_the_control_witness :
  let frames := fun _ : JsString => 0%N in
  let st := deliver frames parseSample Disconnect
              (deliver frames parseSample Open
                 (deliver frames parseSample (Start ConnectOpens)
                    (mounted [] (Some board)))) in
  sessionRef (refs st) = None.
Proof.
  cbn zeta.
  refine (proj2 (proj2 (proj2
            (start_is_kept_out_by_the_control (fun _ => 0%N) parseSample _)))
            [] (Some board) _ _).
  - apply reach_step; [|reflexivity].
    apply reach_step; [|reflexivity].
    apply reach_step; [|reflexivity].
    apply reach_init.
  - reflexivity.
Defined.

(** * Further properties *)

(** ** Trimming *)

Lemma trimStart_clean (s : JsString) :
  match trimStart s with
  | [] => True
  | c :: _ => isWhiteSpace c = false
  end.
Proof.
  induction s as [|c s IH]; cbn; [done|].
  destruct (isWhiteSpace c) eqn:E; [exact IH|exact E].
Qed.

Lemma trimStart_keeps (c : N) (s : JsString) :
  isWhiteSpace c = false -> trimStart (c :: s) = c :: s.
Proof. intros H. cbn. by rewrite H. Qed.

Lemma trimStart_snoc (s : JsString) (c : N) :
  isWhiteSpace c = false -> trimStart (s ++ [c]) = trimStart s ++ [c].
Proof.
  intros H. induction s as [|d s IH]; cbn; [by rewrite H|].
  by destruct (isWhiteSpace d).
Qed.

Lemma trimEnd_keeps (c : N) (s : JsString) :
  isWhiteSpace c = false -> trimEnd (c :: s) = c :: trimEnd s.
Proof.
  intros H. unfold trimEnd. cbn [rev].
  change (List.rev s) with (rev s).
  by rewrite trimStart_snoc, rev_app_distr.
Qed.

Lemma trimStart_idemp (s : JsString) : trimStart (trimStart s) = trimStart s.
Proof.
  pose proof (trimStart_clean s) as H.
  destruct (trimStart s) as [|c t]; [done|]. by apply trimStart_keeps.
Qed.

Lemma trim_idemp (s : JsString) : trim (trim s) = trim s.
Proof.
  unfold trim. pose proof (trimStart_clean s) as H.
  destruct (trimStart s) as [|c t]; [done|].
  rewrite (trimEnd_keeps c t H), (trimStart_keeps c _ H).
  rewrite (trimEnd_keeps c _ H). f_equal.
  unfold trimEnd. by rewrite rev_involutive, trimStart_idemp.
Qed.

Lemma trimStart_has (s : JsString) (c : N) :
  c ∈ s -> isWhiteSpace c = false -> trimStart s <> [].
Proof.
  intros Hin Hc. induction Hin as [c s|c d s Hin IH]; cbn.
  - rewrite Hc. discriminate.
  - destruct (isWhiteSpace d); [exact (IH Hc)|discriminate].
Qed.

Lemma trim_has (s : JsString) (c : N) :
  c ∈ s -> isWhiteSpace c = false -> trim s <> [].
Proof.
  intros Hin Hc. unfold trim.
  pose proof (trimStart_clean s) as H.
  pose proof (trimStart_has s c Hin Hc) as Hne.
  destruct (trimStart s) as [|d t]; [done|].
  rewrite (trimEnd_keeps d t H). discriminate.
Qed.

Lemma truthy_true (s : JsString) : truthy s = true <-> s <> [].
Proof. destruct s; cbn; split; congruence. Qed.

(** ** What the callbacks leave alone *)

Lemma onToolCall_untouched (session : nat) (tc : ToolCall) (st : State) :
  ui (stateOf (onToolCall session tc st)) = ui st
  /\ refs (stateOf (onToolCall session tc st)) = refs st
  /\ untouched (stateOf (onToolCall session tc st)) = untouched st
  /\ started (env (stateOf (onToolCall session tc st))) = started (env st)
  /\ stopped (env (stateOf (onToolCall session tc st))) = stopped (env st).
Proof.
  destruct (onToolCall_effects session tc st) as (ss & sent & ->). done.
Qed.

Lemma onAudio_untouched (frames : JsString -> N) (now : Z)
    (data : JsString) (st : State) :
  ui (onAudio frames now data st) = ui st
  /\ untouched (onAudio frames now data st) = untouched st.
Proof.
  unfold onAudio. destruct (truthy data); [|done].
  by destruct (audioContextOutRef (refs st)).
Qed.

Lemma onTurnComplete_untouched (st : State) :
  untouched (onTurnComplete st) = untouched st.
Proof. unfold onTurnComplete. by destruct (0 <? _)%nat. Qed.

Lemma onmessage_untouched (session : nat) (frames : JsString -> N) (now : Z)
    (m : Message) (st : State) :
  untouched (onmessage session frames now m st) = untouched st.
Proof.
  unfold onmessage.
  set (branch := match toolCall m with Some _ => _ | None => _ end).
  assert (H0 : untouched (stateOf branch) = untouched st).
  { subst branch. destruct (toolCall m); [apply onToolCall_untouched|done]. }
  clearbody branch. destruct branch as [s0|s0]; cbn [stateOf] in H0;
    [|exact H0].
  rewrite <- H0. clear H0 st. unfold onServerContent.
  destruct (serverContent m) as [sc|]; [|done].
  set (s1 := match audio sc with Some _ => _ | None => _ end).
  assert (H1 : untouched s1 = untouched s0).
  { subst s1. destruct (audio sc); [apply onAudio_untouched|done]. }
  clearbody s1. rewrite <- H1. clear H1 s0.
  destruct (turnComplete sc); [rewrite onTurnComplete_untouched|];
    destruct (outputTranscription sc), (inputTranscription sc),
      (interrupted sc); reflexivity.
Qed.

Lemma untouched_fields (st st' : State) :
  untouched st' = untouched st ->
  status (ui st') = status (ui st)
  /\ sessionRef (refs st') = sessionRef (refs st)
  /\ connections (env st') = connections (env st)
  /\ audioContextInRef (refs st') = audioContextInRef (refs st)
  /\ audioContextOutRef (refs st') = audioContextOutRef (refs st)
  /\ contexts (env st') = contexts (env st)
  /\ closedContexts (env st') = closedContexts (env st)
  /\ intervalRef (refs st') = intervalRef (refs st)
  /\ timers (env st') = timers (env st).
Proof.
  unfold untouched. intros H. injection H. intros. repeat split; assumption.
Qed.

Lemma receiveAll_cons (session : nat) (frames : JsString -> N)
    (a : Z * Message) (ms : list (Z * Message)) (st : State) :
  receiveAll session frames (a :: ms) st =
  receiveAll session frames ms (onmessage session frames a.1 a.2 st).
Proof. reflexivity. Qed.

Lemma receiveAll_untouched (session : nat) (frames : JsString -> N)
    (ms : list (Z * Message)) (st : State) :
  untouched (receiveAll session frames ms st) = untouched st.
Proof.
  revert st. induction ms as [|a ms IH]; intros st; [done|].
  rewrite receiveAll_cons, IH. apply onmessage_untouched.
Qed.

(** ** Reachable states *)

(** An invariant of the component: it holds of the initial state and every
    control and callback keeps it. *)
Lemma reachable_invariant (frames : JsString -> N)
    (parse : JsString -> option JsonValue) (init : State)
    (P : State -> Prop) :
  P init ->
  (forall st o, P st -> startOffered st = true -> P (startTutoring o st)) ->
  (forall st, P st -> P (cleanup st)) ->
  (forall st o, P st -> P (handleGradeAssignment parse o st)) ->
  (forall st, P st -> P (onopen st)) ->
  (forall st session now m, P st -> P (onmessage session frames now m st)) ->
  (forall st, P st -> P (onerror st)) ->
  (forall st source, P st -> P (onEnded source st)) ->
  forall st, reachable frames parse init st -> P st.
Proof.
  intros Hinit Hstart Hclean Hgrade Hopen Hmsg Herr Hend st Hreach.
  induction Hreach as [|st ev Hreach IH Hoff]; [exact Hinit|].
  destruct ev; cbn [deliver offered] in *; eauto.
Qed.

(** The three ways [handleGradeAssignment] can go. *)
Lemma handleGradeAssignment_cases (parse : JsString -> option JsonValue)
    (o : GradeOutcome) (st : State) :
  handleGradeAssignment parse o st = st
  \/ handleGradeAssignment parse o st =
       setIsGrading false (grading_catch (setIsGrading true st))
  \/ exists report,
       handleGradeAssignment parse o st =
       setIsGrading false
         (cleanup (setFinalGrade (Some report) (setIsGrading true st))).
Proof.
  unfold handleGradeAssignment.
  destruct (canvasRef (refs st)); [|by left].
  destruct o as [|text]; [by right; left|].
  unfold grading_store.
  destruct (parse _) as [result|]; [|by right; left].
  destruct (readField result (lit "grade")); [|by right; left].
  destruct (readField result (lit "feedback")); [|by right; left].
  right; right. eauto.
Qed.

Lemma cleanup_refs_env (st : State) :
  audioContextInRef (refs (cleanup st)) = audioContextInRef (refs st)
  /\ audioContextOutRef (refs (cleanup st)) = audioContextOutRef (refs st)
  /\ nextStartTimeRef (refs (cleanup st)) = nextStartTimeRef (refs st)
  /\ canvasRef (refs (cleanup st)) = canvasRef (refs st)
  /\ intervalRef (refs (cleanup st)) = intervalRef (refs st)
  /\ contexts (env (cleanup st)) = contexts (env st)
  /\ started (env (cleanup st)) = started (env st)
  /\ strokes (env (cleanup st)) = strokes (env st)
  /\ connections (env (cleanup st)) = connections (env st)
  /\ toolResponses (env (cleanup st)) = toolResponses (env st)
  /\ rubric (ui (cleanup st)) = rubric (ui st)
  /\ closedContexts (env st) ⊆ closedContexts (env (cleanup st))
  /\ stopped (env (cleanup st)) = sourcesRef (refs st) ∪ stopped (env st).
Proof.
  cleanup_cases st; cbn; repeat split; try reflexivity; set_solver.
Qed.

(** ** The transcript buffers *)

Lemma cleanup_mirrored (st : State) : mirrored (cleanup st).
Proof.
  destruct (cleanup_done st) as (_ & Hu & Hm & Hi & Ho & _).
  unfold mirrored. cbn zeta in *. by rewrite Hu, Hm, Hi, Ho.
Qed.

Lemma onAudio_buffers (frames : JsString -> N) (now : Z) (data : JsString)
    (st : State) :
  currentInputRef (refs (onAudio frames now data st)) =
    currentInputRef (refs st)
  /\ currentOutputRef (refs (onAudio frames now data st)) =
       currentOutputRef (refs st)
  /\ transcriptions (ui (onAudio frames now data st)) =
       transcriptions (ui st).
Proof.
  unfold onAudio. destruct (truthy data); [|done].
  by destruct (audioContextOutRef (refs st)).
Qed.

Lemma onmessage_mirrored (session : nat) (frames : JsString -> N) (now : Z)
    (m : Message) (st : State) :
  mirrored st -> mirrored (onmessage session frames now m st).
Proof.
  unfold onmessage.
  set (branch := match toolCall m with Some _ => _ | None => _ end).
  assert (H0 : ui (stateOf branch) = ui st
               /\ refs (stateOf branch) = refs st).
  { subst branch. destruct (toolCall m) as [tc|]; [|done].
    by destruct (onToolCall_untouched session tc st) as (? & ? & _). }
  clearbody branch. intros H.
  assert (Hs0 : mirrored (stateOf branch)).
  { unfold mirrored in *. destruct H0 as [-> ->]. exact H. }
  clear H H0 st.
  destruct branch as [s0|s0]; cbn [stateOf] in Hs0; [|exact Hs0].
  unfold onServerContent.
  destruct (serverContent m) as [sc|]; [|exact Hs0].
  set (s1 := match audio sc with Some _ => _ | None => _ end).
  assert (Hs1 : mirrored s1).
  { subst s1. destruct (audio sc) as [data|]; [|exact Hs0].
    destruct (onAudio_untouched frames now data s0) as [Hui _].
    destruct (onAudio_buffers frames now data s0) as (Hi & Ho & _).
    unfold mirrored in *. by rewrite Hui, Hi, Ho. }
  clearbody s1. clear Hs0 s0. destruct Hs1 as [Hu Hm].
  unfold onTurnComplete.
  destruct (turnComplete sc), (outputTranscription sc),
    (inputTranscription sc), (interrupted sc);
    try (destruct (0 <? _)%nat); split; cbn; congruence.
Qed.

(** X1: in every state reached from the mounted component, the two live
    texts that the conversation pane shows are the contents of the two
    transcript buffers. *)
Theorem live_texts_mirror_buffers (frames : JsString -> N)
    (parse : JsString -> option JsonValue) (r : JsString)
    (c : option Canvas) (st : State) :
  reachable frames parse (mounted r c) st ->
  activeUserText (ui st) = currentInputRef (refs st)
  /\ activeModelText (ui st) = currentOutputRef (refs st).
Proof.
  apply (reachable_invariant frames parse (mounted r c) mirrored).
  - done.
  - intros s o H _.
    destruct o; [apply cleanup_mirrored | apply cleanup_mirrored | exact H].
  - intros s _. apply cleanup_mirrored.
  - intros s o H.
    destruct (handleGradeAssignment_cases parse o s) as [->|[->|[rep ->]]].
    + exact H.
    + exact H.
    + apply (cleanup_mirrored (setFinalGrade (Some rep) (setIsGrading true s))).
  - intros s H. exact H.
  - intros s session now m. apply onmessage_mirrored.
  - intros s _. unfold onerror. apply cleanup_mirrored.
  - intros s source H. exact H.
Qed.

Lemma live_texts_mirror_buffers_witness :
  let frames := fun _ : JsString => 0%N in
  let st := deliver frames parseSample
              (Receive 0 0 (outputEvent (lit "Try")))
              (deliver frames parseSample
                 (Receive 0 0 (inputEvent (lit "two x")))
                 (deliver frames parseSample Open
                    (deliver frames parseSample (Start ConnectOpens)
                       (mounted [] (Some board))))) in
  activeUserText (ui st) = currentInputRef (refs st)
  /\ activeModelText (ui st) = currentOutputRef (refs st).
Proof.
  cbn zeta.
  apply (live_texts_mirror_buffers (fun _ => 0%N) parseSample []
           (Some board)).
  repeat (apply reach_step; [|reflexivity]). apply reach_init.
Defined.

Lemma onmessage_partialEvent (session : nat) (frames : JsString -> N)
    (now : Z) (p : Role * JsString) (st : State) :
  let st' := onmessage session frames now (partialEvent p) st in
  currentInputRef (refs st') = currentInputRef (refs st) ++ spoken user [p]
  /\ currentOutputRef (refs st') =
       currentOutputRef (refs st) ++ spoken model [p]
  /\ transcriptions (ui st') = transcriptions (ui st).
Proof.
  destruct p as [[] t]; cbn; by rewrite !app_nil_r.
Qed.

Lemma spoken_cons (r : Role) (p : Role * JsString)
    (ps : list (Role * JsString)) :
  spoken r (p :: ps) = spoken r [p] ++ spoken r ps.
Proof. unfold spoken. cbn. by rewrite app_nil_r. Qed.

(** X2: partial transcripts are joined in their order of arrival, each to
    the buffer of its speaker, and commit nothing; the turn-complete event
    that follows commits the joined texts, trimmed. *)
Theorem partials_accumulate (session : nat) (frames : JsString -> N)
    (now : Z) (ps : list (Z * (Role * JsString))) (st : State) :
  let st' := receiveAll session frames
               (map (fun a => (a.1, partialEvent a.2)) ps) st in
  let input := currentInputRef (refs st) ++ spoken user (map snd ps) in
  let output := currentOutputRef (refs st) ++ spoken model (map snd ps) in
  currentInputRef (refs st') = input
  /\ currentOutputRef (refs st') = output
  /\ transcriptions (ui st') = transcriptions (ui st)
  /\ transcriptions (ui (onmessage session frames now turnCompleteEvent st')) =
       transcriptions (ui st) ++ historyToAppend input output.
Proof.
  cbn zeta.
  assert (H : currentInputRef (refs (receiveAll session frames
                (map (fun a => (a.1, partialEvent a.2)) ps) st)) =
              currentInputRef (refs st) ++ spoken user (map snd ps)
              /\ currentOutputRef (refs (receiveAll session frames
                   (map (fun a => (a.1, partialEvent a.2)) ps) st)) =
                 currentOutputRef (refs st) ++ spoken model (map snd ps)
              /\ transcriptions (ui (receiveAll session frames
                   (map (fun a => (a.1, partialEvent a.2)) ps) st)) =
                 transcriptions (ui st)).
  { revert st. induction ps as [|a ps IH]; intros st.
    - cbn. by rewrite !app_nil_r.
    - cbn [map]. rewrite receiveAll_cons. cbn [fst snd].
      destruct (onmessage_partialEvent session frames a.1 a.2 st)
        as (Hi & Ho & Ht). cbn zeta in Hi, Ho, Ht.
      destruct (IH (onmessage session frames a.1 (partialEvent a.2) st))
        as (Hi' & Ho' & Ht').
      rewrite Hi', Ho', Ht', Hi, Ho, Ht.
      rewrite (spoken_cons user a.2 (map snd ps)).
      rewrite (spoken_cons model a.2 (map snd ps)).
      by rewrite !app_assoc. }
  destruct H as (Hi & Ho & Ht). repeat split; try done.
  change (onmessage session frames now turnCompleteEvent ?s)
    with (onTurnComplete s).
  by rewrite onTurnComplete_history, Hi, Ho, Ht.
Qed.

Lemma historyToAppend_trimmed (input output : JsString) :
  Forall trimmed (historyToAppend input output)
  /\ (length (historyToAppend input output) <= 2)%nat.
Proof.
  unfold historyToAppend.
  destruct (truthy (trim input)) eqn:Ei, (truthy (trim output)) eqn:Eo;
    cbn; split; try lia; repeat constructor; cbn;
    try (by apply truthy_true); apply trim_idemp.
Qed.

Lemma onmessage_history (session : nat) (frames : JsString -> N) (now : Z)
    (m : Message) (st : State) :
  exists input output,
    transcriptions (ui (onmessage session frames now m st)) =
    transcriptions (ui st) ++
    match serverContent m with
    | Some sc => if turnComplete sc then historyToAppend input output else []
    | None => []
    end.
Proof.
  unfold onmessage.
  set (branch := match toolCall m with Some _ => _ | None => _ end).
  assert (H0 : transcriptions (ui (stateOf branch)) =
               transcriptions (ui st)).
  { subst branch. destruct (toolCall m) as [tc|]; [|done].
    by destruct (onToolCall_untouched session tc st) as (-> & _). }
  clearbody branch. rewrite <- H0. clear H0 st.
  destruct branch as [s0|s0]; cbn [stateOf].
  2:{ exists [], [].
      destruct (serverContent m) as [sc|]; [destruct (turnComplete sc)|];
        cbn; by rewrite app_nil_r. }
  unfold onServerContent.
  destruct (serverContent m) as [sc|];
    [|exists [], []; by rewrite app_nil_r].
  set (s1 := match audio sc with Some _ => _ | None => _ end).
  assert (H1 : transcriptions (ui s1) = transcriptions (ui s0)).
  { subst s1. destruct (audio sc) as [data|]; [|done].
    by destruct (onAudio_buffers frames now data s0) as (_ & _ & ->). }
  clearbody s1. rewrite <- H1. clear H1 s0.
  destruct (turnComplete sc).
  - eexists _, _. rewrite onTurnComplete_history.
    f_equal.
    destruct (outputTranscription sc), (inputTranscription sc),
      (interrupted sc); reflexivity.
  - exists [], []. rewrite app_nil_r.
    destruct (outputTranscription sc), (inputTranscription sc),
      (interrupted sc); reflexivity.
Qed.

(** X3: a message never rewrites the history: what was committed stays, in
    its order, and at most two entries are added behind it, none unless the
    message completes a turn. *)
Theorem history_only_grows (session : nat) (frames : JsString -> N)
    (now : Z) (m : Message) (st : State) :
  exists added,
    transcriptions (ui (onmessage session frames now m st)) =
      transcriptions (ui st) ++ added
    /\ match serverContent m with
       | Some sc => if turnComplete sc then (length added <= 2)%nat
                    else added = []
       | None => added = []
       end.
Proof.
  destruct (onmessage_history session frames now m st)
    as (input & output & H).
  eexists. split; [exact H|].
  destruct (serverContent m) as [sc|]; [|done].
  destruct (turnComplete sc); [|done].
  apply historyToAppend_trimmed.
Qed.

Lemma onmessage_trimmed (session : nat) (frames : JsString -> N) (now : Z)
    (m : Message) (st : State) :
  Forall trimmed (transcriptions (ui st)) ->
  Forall trimmed (transcriptions (ui (onmessage session frames now m st))).
Proof.
  intros H.
  destruct (onmessage_history session frames now m st)
    as (input & output & ->).
  apply Forall_app. split; [exact H|].
  destruct (serverContent m) as [sc|]; [|constructor].
  destruct (turnComplete sc); [|constructor].
  apply historyToAppend_trimmed.
Qed.

Lemma cleanup_trimmed (st : State) :
  Forall trimmed (transcriptions (ui st)) ->
  Forall trimmed (transcriptions (ui (cleanup st))).
Proof. by destruct (cleanup_ui st) as (_ & _ & _ & ->). Qed.

(** X4: in every state reached from the mounted component, each entry of
    the history has a text that is not empty and has no white space at
    either end. *)
Theorem history_entries_are_trimmed (frames : JsString -> N)
    (parse : JsString -> option JsonValue) (r : JsString)
    (c : option Canvas) (st : State) :
  reachable frames parse (mounted r c) st ->
  forall e, e ∈ transcriptions (ui st) ->
            text e <> [] /\ trim (text e) = text e.
Proof.
  intros Hreach. apply Forall_forall. revert st Hreach.
  apply (reachable_invariant frames parse (mounted r c)
           (fun st => Forall trimmed (transcriptions (ui st)))).
  - constructor.
  - intros s o _ _.
    assert (H : transcriptions (ui (startTutoring o s)) = []).
    { destruct o; try reflexivity;
        unfold startTutoring, startTutoring_catch;
        match goal with
        | |- context [cleanup ?s] =>
            by destruct (cleanup_ui s) as (_ & _ & _ & ->)
        end. }
    rewrite H. constructor.
  - intros s. apply cleanup_trimmed.
  - intros s o H.
    destruct (handleGradeAssignment_cases parse o s) as [->|[->|[rep ->]]];
      [exact H | exact H |].
    by apply (cleanup_trimmed
                (setFinalGrade (Some rep) (setIsGrading true s))).
  - intros s H. exact H.
  - intros s session now m. apply onmessage_trimmed.
  - intros s H. unfold onerror. by apply cleanup_trimmed.
  - intros s source H. exact H.
Qed.

Lemma history_entries_are_trimmed_witness :
  let frames := fun _ : JsString => 0%N in
  let st := deliver frames parseSample (Receive 0 0 turnCompleteEvent)
              (deliver frames parseSample
                 (Receive 0 0 (inputEvent (lit "  two x  ")))
                 (deliver frames parseSample Open
                    (deliver frames parseSample (Start ConnectOpens)
                       (mounted [] (Some board))))) in
  transcriptions (ui st) = [{| role := user; text := lit "two x" |}]
  /\ lit "two x" <> [] /\ trim (lit "two x") = lit "two x".
Proof.
  cbn zeta. split; [reflexivity|].
  refine (history_entries_are_trimmed (fun _ => 0%N) parseSample []
            (Some board)
            (deliver (fun _ => 0%N) parseSample (Receive 0 0 turnCompleteEvent)
               (deliver (fun _ => 0%N) parseSample
                  (Receive 0 0 (inputEvent (lit "  two x  ")))
                  (deliver (fun _ => 0%N) parseSample Open
                     (deliver (fun _ => 0%N) parseSample (Start ConnectOpens)
                        (mounted [] (Some board))))))
            _ {| role := user; text := lit "two x" |} _).
  - repeat (apply reach_step; [|reflexivity]). apply reach_init.
  - vm_compute. apply list_elem_of_here.
Defined.

(** X5: an interruption commits nothing and leaves the Student buffer as it
    is; it puts its marker at the end of the Mentor buffer, so the turn it
    falls in is never a silent one: the turn-complete event that follows
    commits a Mentor entry ending the history, with the trimmed buffer and
    marker as its text. *)
Theorem interruption_marks_the_turn (session : nat) (frames : JsString -> N)
    (now now' : Z) (st : State) :
  let st1 := onmessage session frames now interruptionEvent st in
  let st2 := onmessage session frames now' turnCompleteEvent st1 in
  let marked := trim (currentOutputRef (refs st) ++ lit " [Interrupted]") in
  transcriptions (ui st1) = transcriptions (ui st)
  /\ currentInputRef (refs st1) = currentInputRef (refs st)
  /\ currentOutputRef (refs st1) =
       currentOutputRef (refs st) ++ lit " [Interrupted]"
  /\ marked <> []
  /\ transcriptions (ui st2) =
       transcriptions (ui st) ++
       (if truthy (trim (currentInputRef (refs st)))
        then [{| role := user; text := trim (currentInputRef (refs st)) |}]
        else []) ++
       [{| role := model; text := marked |}].
Proof.
  cbn zeta.
  assert (Hm : trim (currentOutputRef (refs st) ++ lit " [Interrupted]")
               <> []).
  { apply (trim_has _ 93%N); [|reflexivity].
    apply elem_of_app. right. vm_compute. set_solver. }
  repeat split; try done.
  change (onmessage session frames now' turnCompleteEvent ?s)
    with (onTurnComplete s).
  rewrite onTurnComplete_history.
  change (onmessage session frames now interruptionEvent st)
    with (onInterrupted st).
  cbn [onInterrupted]. unfold historyToAppend.
  change (currentInputRef (refs (onInterrupted st)))
    with (currentInputRef (refs st)).
  change (currentOutputRef (refs (onInterrupted st)))
    with (currentOutputRef (refs st) ++ lit " [Interrupted]").
  change (transcriptions (ui (onInterrupted st)))
    with (transcriptions (ui st)).
  apply truthy_true in Hm. by rewrite Hm.
Qed.

(** ** Tool calls and the canvas *)

Lemma onmessage_toolCallEvent (session : nat) (frames : JsString -> N)
    (now : Z) (fcs : list FunctionCall) (st : State) :
  onmessage session frames now (toolCallEvent fcs) st =
  stateOf (onToolCall session {| functionCalls := Some fcs |} st).
Proof.
  unfold onmessage, toolCallEvent. cbn [toolCall serverContent].
  by destruct (onToolCall session _ st).
Qed.

Lemma onToolCall_strokes (session : nat) (fcs : list FunctionCall)
    (st : State) :
  strokes (env (stateOf (onToolCall session
                           {| functionCalls := Some fcs |} st))) =
  strokes (env (respondAll fcs st).1).
Proof.
  unfold onToolCall. cbn [functionCalls].
  destruct (respondAll fcs st) as [st1 [rs|]]; cbn [stateOf fst]; [|done].
  by destruct (0 <? length rs)%nat.
Qed.

Lemma respond_strokes (fc : FunctionCall) (st st' : State)
    (r : FunctionResponse) :
  respond fc st = Some (st', r) ->
  length (strokes (env st')) =
    (length (strokes (env st)) +
     if drawable st then length (drawRequests [fc]) else 0)%nat
  /\ refs st' = refs st.
Proof.
  unfold respond, drawHighlightSquare, drawable, drawRequests.
  rewrite filter_cons, filter_nil.
  destruct (decide (fc_name fc = Some (lit "draw_square"))) as [E|E].
  - rewrite (bool_decide_eq_true_2 _ E).
    destruct (fc_args fc) as [a|]; [|discriminate]. intros [= <- _].
    destruct (canvasRef (refs st)) as [c|]; [destruct (has2d c)|]; cbn;
      try rewrite length_app; cbn; split; try reflexivity; lia.
  - rewrite (bool_decide_eq_false_2 _ E). intros [= <- _].
    destruct (canvasRef (refs st)) as [c|]; [destruct (has2d c)|]; cbn;
      split; try reflexivity; lia.
Qed.

Lemma respondAll_strokes (fcs : list FunctionCall) (st : State) :
  length (strokes (env (respondAll fcs st).1)) =
  (length (strokes (env st)) +
   if drawable st then length (drawRequests (served fcs)) else 0)%nat.
Proof.
  revert st. induction fcs as [|fc fcs IH]; intros st.
  - cbn. destruct (drawable st); lia.
  - cbn [respondAll served]. destruct (passes fc) eqn:Hfc.
    + destruct (respond_passes fc st Hfc) as (st1 & r & E & _). rewrite E.
      destruct (respond_strokes fc st st1 r E) as [Hs Hr].
      specialize (IH st1).
      destruct (respondAll fcs st1) as [st2 rs]. cbn [fst] in IH |- *.
      assert (Hd : drawable st1 = drawable st)
        by (unfold drawable; by rewrite Hr).
      rewrite IH, Hs, Hd. unfold drawRequests.
      rewrite (filter_cons _ fc (served fcs)), (filter_cons _ fc []),
        filter_nil.
      destruct (drawable st); [|lia].
      destruct (decide (fc_name fc = Some (lit "draw_square"))); cbn; lia.
    + rewrite (respond_throws fc st Hfc). cbn.
      destruct (drawable st); lia.
Qed.

Lemma served_prefix (fcs : list FunctionCall) :
  exists rest,
    fcs = served fcs ++ rest
    /\ match rest with
       | [] => True
       | fc :: _ => passes fc = false
       end.
Proof.
  induction fcs as [|fc fcs (rest & IH & Hrest)]; cbn [served].
  - by exists [].
  - destruct (passes fc) eqn:E.
    + exists rest. split; [cbn; by rewrite <- IH|exact Hrest].
    + by exists (fc :: fcs).
Qed.

Lemma served_all (fcs : list FunctionCall) :
  Forall (fun fc => passes fc = true) fcs -> served fcs = fcs.
Proof.
  induction 1 as [|fc fcs Hfc _ IH]; cbn [served]; [done|].
  by rewrite Hfc, IH.
Qed.

(** X6: a tool-call event leaves the React state and every reference as they
    are (status, history, buffers, playback cursor and pending set), and
    starts or stops no audio; when its list of requests is empty it sends
    nothing and changes nothing at all. *)
Theorem tool_calls_leave_the_session_alone (session : nat)
    (frames : JsString -> N) (now : Z) (fcs : list FunctionCall)
    (st : State) :
  let st' := onmessage session frames now (toolCallEvent fcs) st in
  ui st' = ui st /\ refs st' = refs st
  /\ started (env st') = started (env st)
  /\ stopped (env st') = stopped (env st)
  /\ connections (env st') = connections (env st)
  /\ onmessage session frames now (toolCallEvent []) st = st.
Proof.
  cbn zeta. rewrite onmessage_toolCallEvent.
  destruct (onToolCall_untouched session {| functionCalls := Some fcs |} st)
    as (Hu & Hr & Hun & Hs & Hp).
  destruct (untouched_fields _ _ Hun) as (_ & _ & Hc & _).
  repeat split; done.
Qed.

(** X7: the requests of a tool-call event are served in order, up to the
    first [draw_square] request that carries no [args], which throws and
    ends the handler.  When the canvas is there with its 2d context, the
    event strokes one square for each [draw_square] request among the served
    ones, and none otherwise; requests of other names draw nothing.  The
    served requests are all the requests of the event, or the ones before a
    request that does not pass. *)
Theorem one_square_per_draw_request (session : nat)
    (frames : JsString -> N) (now : Z) (fcs : list FunctionCall)
    (st : State) :
  length (strokes (env (onmessage session frames now (toolCallEvent fcs) st)))
  = (length (strokes (env st)) +
     if drawable st then length (drawRequests (served fcs)) else 0)%nat
  /\ exists rest,
       fcs = served fcs ++ rest
       /\ match rest with
          | [] => True
          | fc :: _ =>
              fc_name fc = Some (lit "draw_square") /\ fc_args fc = None
          end.
Proof.
  split.
  - rewrite onmessage_toolCallEvent, onToolCall_strokes.
    apply respondAll_strokes.
  - destruct (served_prefix fcs) as (rest & Hfcs & Hrest).
    exists rest. split; [exact Hfcs|].
    destruct rest as [|fc rest]; [done|].
    unfold passes in Hrest.
    destruct (decide (fc_name fc = Some (lit "draw_square"))) as [E|E].
    + split; [exact E|].
      rewrite (bool_decide_eq_true_2 _ E) in Hrest.
      by destruct (fc_args fc).
    + by rewrite (bool_decide_eq_false_2 _ E) in Hrest.
Qed.

(** Three requests, the second of which throws: the first square is drawn,
    the third is not. *)
Example squares_up_to_the_throw :
  let st' := onmessage 0 (fun _ => 0%N) 0
               (toolCallEvent [drawRequest; bareDrawRequest; drawRequest])
               (live []) in
  served [drawRequest; bareDrawRequest; drawRequest] = [drawRequest]
  /\ length (strokes (env st')) = 1%nat.
Proof. cbn zeta. split; reflexivity. Qed.

(** ** Pending audio *)

Lemma onAudio_pendingSound (frames : JsString -> N) (now : Z)
    (data : JsString) (st : State) :
  pendingSound st -> pendingSound (onAudio frames now data st).
Proof.
  intros [Hp Hs]. unfold onAudio. destruct (truthy data); [|done].
  destruct (audioContextOutRef (refs st)) as [ctx|]; [|done].
  unfold pendingSound, wasStarted in *. cbn. split.
  - intros n Hn. rewrite length_app. cbn.
    apply elem_of_union in Hn as [Hn|Hn].
    + apply elem_of_singleton in Hn as ->. split; [lia|].
      intros Hin. apply Hs in Hin. lia.
    + destruct (Hp n Hn). split; [lia|done].
  - intros n Hn. rewrite length_app. apply Hs in Hn. lia.
Qed.

Lemma onInterrupted_pendingSound (st : State) :
  pendingSound st -> pendingSound (onInterrupted st).
Proof.
  intros [Hp Hs]. unfold pendingSound, wasStarted in *. cbn. split.
  - intros n Hn. by apply elem_of_empty in Hn.
  - intros n Hn. apply elem_of_union in Hn as [Hn|Hn];
      [by apply Hp|by apply Hs].
Qed.

Lemma cleanup_pendingSound (st : State) :
  pendingSound st -> pendingSound (cleanup st).
Proof.
  intros [Hp Hs].
  destruct (cleanup_done st) as (_ & _ & _ & _ & _ & Hsrc & _).
  destruct (cleanup_refs_env st)
    as (_ & _ & _ & _ & _ & _ & Hst & _ & _ & _ & _ & _ & Hstop).
  cbn zeta in Hsrc.
  unfold pendingSound, wasStarted. rewrite Hsrc, Hst, Hstop. split.
  - intros n Hn. by apply elem_of_empty in Hn.
  - intros n Hn. apply elem_of_union in Hn as [Hn|Hn];
      [by apply Hp|by apply Hs].
Qed.

Lemma onmessage_pendingSound (session : nat) (frames : JsString -> N)
    (now : Z) (m : Message) (st : State) :
  pendingSound st -> pendingSound (onmessage session frames now m st).
Proof.
  unfold onmessage.
  set (branch := match toolCall m with Some _ => _ | None => _ end).
  assert (H0 : refs (stateOf branch) = refs st
               /\ started (env (stateOf branch)) = started (env st)
               /\ stopped (env (stateOf branch)) = stopped (env st)).
  { subst branch. destruct (toolCall m) as [tc|]; [|done].
    by destruct (onToolCall_untouched session tc st) as (_ & ? & _ & ? & ?). }
  clearbody branch. intros H.
  assert (Hs0 : pendingSound (stateOf branch)).
  { unfold pendingSound, wasStarted in *.
    destruct H0 as (-> & -> & ->). exact H. }
  clear H H0 st.
  destruct branch as [s0|s0]; cbn [stateOf] in Hs0; [|exact Hs0].
  unfold onServerContent.
  destruct (serverContent m) as [sc|]; [|exact Hs0].
  set (s1 := match audio sc with Some _ => _ | None => _ end).
  assert (Hs1 : pendingSound s1).
  { subst s1. destruct (audio sc); [by apply onAudio_pendingSound|done]. }
  clearbody s1. clear Hs0 s0.
  set (s2 := if interrupted sc then onInterrupted s1 else s1).
  assert (Hs2 : pendingSound s2).
  { subst s2. destruct (interrupted sc);
      [by apply onInterrupted_pendingSound|done]. }
  clearbody s2. clear Hs1 s1.
  unfold onTurnComplete.
  destruct (turnComplete sc), (outputTranscription sc),
    (inputTranscription sc); try (destruct (0 <? _)%nat); exact Hs2.
Qed.

(** X8: in every state reached from the mounted component, each source node
    of the pending set was started and has not been stopped: nothing that an
    interruption or a teardown stopped is left pending. *)
Theorem pending_sources_are_playing (frames : JsString -> N)
    (parse : JsString -> option JsonValue) (r : JsString)
    (c : option Canvas) (st : State) :
  reachable frames parse (mounted r c) st ->
  forall n, n ∈ sourcesRef (refs st) ->
            (n < length (started (env st)))%nat /\ n ∉ stopped (env st).
Proof.
  intros Hreach.
  enough (H : pendingSound st) by apply H.
  revert st Hreach.
  apply (reachable_invariant frames parse (mounted r c) pendingSound).
  - split; intros n Hn; by apply elem_of_empty in Hn.
  - intros s o H _.
    destruct o;
      [by apply cleanup_pendingSound | by apply cleanup_pendingSound
      | exact H].
  - intros s. apply cleanup_pendingSound.
  - intros s o H.
    destruct (handleGradeAssignment_cases parse o s) as [->|[->|[rep ->]]];
      [exact H | exact H |].
    by apply (cleanup_pendingSound
                (setFinalGrade (Some rep) (setIsGrading true s))).
  - intros s H. exact H.
  - intros s session now m. apply onmessage_pendingSound.
  - intros s H. unfold onerror. by apply cleanup_pendingSound.
  - intros s source [Hp Hs]. split; [|exact Hs].
    intros n Hn. apply Hp. cbn in Hn. set_solver.
Qed.

Lemma pending_sources_are_playing_witness :
  let frames := fun _ : JsString => 24000%N in
  let st := deliver frames parseSample (Receive 0 0 (audioEvent (lit "AAAA")))
              (deliver frames parseSample Open
                 (deliver frames parseSample (Start ConnectOpens)
                    (mounted [] (Some board)))) in
  (0 < length (started (env st)))%nat /\ 0 ∉ stopped (env st).
Proof.
  cbn zeta.
  refine (pending_sources_are_playing (fun _ => 24000%N) parseSample []
            (Some board)
            (deliver (fun _ => 24000%N) parseSample
               (Receive 0 0 (audioEvent (lit "AAAA")))
               (deliver (fun _ => 24000%N) parseSample Open
                  (deliver (fun _ => 24000%N) parseSample (Start ConnectOpens)
                     (mounted [] (Some board)))))
            _ 0 _).
  - repeat (apply reach_step; [|reflexivity]). apply reach_init.
  - vm_compute. set_solver.
Defined.

(** ** Status, sessions and audio contexts *)

(** X9: in no state reached from the mounted component is the status
    [ERROR]: each [setStatus (ERROR)] is followed by the teardown, which
    sets [IDLE]; so the start control is offered exactly under [IDLE]. *)
Theorem status_is_never_error (frames : JsString -> N)
    (parse : JsString -> option JsonValue) (r : JsString)
    (c : option Canvas) (st : State) :
  reachable frames parse (mounted r c) st ->
  status (ui st) <> ERROR
  /\ (startOffered st = true <-> status (ui st) = IDLE).
Proof.
  intros Hreach.
  enough (H : status (ui st) <> ERROR).
  { split; [exact H|]. unfold startOffered.
    destruct (status (ui st)); split; congruence. }
  revert st Hreach.
  apply (reachable_invariant frames parse (mounted r c)
           (fun st => status (ui st) <> ERROR)).
  - discriminate.
  - intros s o _ _. destruct o; try discriminate;
      unfold startTutoring, startTutoring_catch;
      match goal with
      | |- context [cleanup ?s] =>
          destruct (cleanup_done s) as (-> & _); discriminate
      end.
  - intros s _. destruct (cleanup_done s) as (-> & _). discriminate.
  - intros s o H.
    destruct (handleGradeAssignment_cases parse o s) as [->|[->|[rep ->]]];
      [exact H | exact H |].
    change (status (ui (setIsGrading false ?x))) with (status (ui x)).
    match goal with
    | |- context [cleanup ?s] =>
        destruct (cleanup_done s) as (-> & _); discriminate
    end.
  - discriminate.
  - intros s session now m H.
    by destruct (untouched_fields _ _
                   (onmessage_untouched session frames now m s)) as (-> & _).
  - intros s _. unfold onerror.
    match goal with
    | |- context [cleanup ?s] =>
        destruct (cleanup_done s) as (-> & _); discriminate
    end.
  - intros s source H. exact H.
Qed.

Lemma status_is_never_error_witness :
  let st := deliver (fun _ => 0%N) parseSample
              (Start (MicrophoneFails None)) (mounted [] (Some board)) in
  status (ui st) <> ERROR
  /\ (startOffered st = true <-> status (ui st) = IDLE).
Proof.
  cbn zeta.
  apply (status_is_never_error (fun _ => 0%N) parseSample [] (Some board)).
  apply reach_step; [|reflexivity]. apply reach_init.
Defined.

Lemma cleanup_sessionRef (st : State) : sessionRef (refs (cleanup st)) = None.
Proof. by destruct (cleanup_done st) as (_ & _ & _ & _ & _ & _ & H & _). Qed.

(** X10: in every state reached from the mounted component, a session held
    by [sessionRef] is the one opened last: the reference is never left on
    an earlier session. *)
Theorem held_session_is_the_latest (frames : JsString -> N)
    (parse : JsString -> option JsonValue) (r : JsString)
    (c : option Canvas) (st : State) :
  reachable frames parse (mounted r c) st ->
  forall s, sessionRef (refs st) = Some s ->
            S s = length (connections (env st)).
Proof.
  revert st.
  apply (reachable_invariant frames parse (mounted r c)
           (fun st => forall s, sessionRef (refs st) = Some s ->
                                S s = length (connections (env st)))).
  - discriminate.
  - intros s o _ _ k. destruct o.
    + unfold startTutoring, startTutoring_catch.
      by rewrite cleanup_sessionRef.
    + unfold startTutoring, startTutoring_catch.
      by rewrite cleanup_sessionRef.
    + cbn. intros [= <-]. rewrite length_app. cbn. lia.
  - intros s _ k. by rewrite cleanup_sessionRef.
  - intros s o H k.
    destruct (handleGradeAssignment_cases parse o s) as [->|[->|[rep ->]]];
      [apply H | apply H |].
    change (sessionRef (refs (setIsGrading false ?x)))
      with (sessionRef (refs x)).
    by rewrite cleanup_sessionRef.
  - intros s H. exact H.
  - intros s session now m H k.
    destruct (untouched_fields _ _
                (onmessage_untouched session frames now m s))
      as (_ & -> & -> & _).
    apply H.
  - intros s _ k. unfold onerror. by rewrite cleanup_sessionRef.
  - intros s source H. exact H.
Qed.

Lemma held_session_is_the_latest_witness :
  let st := live [] in
  sessionRef (refs st) = Some 0 /\ 1 = length (connections (env st)).
Proof.
  cbn zeta. split; [reflexivity|].
  refine (held_session_is_the_latest (fun _ => 0%N) parseSample []
            (Some board)
            (deliver (fun _ => 0%N) parseSample Open
               (deliver (fun _ => 0%N) parseSample (Start ConnectOpens)
                  (mounted [] (Some board))))
            _ 0 _).
  - repeat (apply reach_step; [|reflexivity]). apply reach_init.
  - reflexivity.
Defined.

Lemma cleanup_contextsAccounted (st : State) :
  (forall c, (c < contexts (env st))%nat ->
             c ∈ closedContexts (env st)
             \/ audioContextInRef (refs st) = Some c
             \/ audioContextOutRef (refs st) = Some c) ->
  contextsAccounted (cleanup st).
Proof.
  intros H.
  destruct (cleanup_done st)
    as (_ & _ & _ & _ & _ & _ & _ & _ & _ & Hin & Hout).
  destruct (cleanup_refs_env st)
    as (Ei & Eo & _ & _ & _ & Ec & _ & _ & _ & _ & _ & Hsub & _).
  cbn zeta in Hin, Hout.
  unfold contextsAccounted. rewrite Ei, Eo, Ec. split.
  - intros c Hc. left. destruct (H c Hc) as [Hcl|[Hi|Ho]];
      [by apply Hsub | by apply Hin | by apply Hout].
  - intros _ c [Hi|Ho]; [by apply Hin | by apply Hout].
Qed.

(** X11: whenever the component is idle, in a state reached from the mounted
    component, every audio context it has created so far is closed: no
    session leaves an audio context open behind it. *)
Theorem idle_component_has_closed_every_context (frames : JsString -> N)
    (parse : JsString -> option JsonValue) (r : JsString)
    (c : option Canvas) (st : State) :
  reachable frames parse (mounted r c) st ->
  status (ui st) = IDLE ->
  forall k, (k < contexts (env st))%nat -> k ∈ closedContexts (env st).
Proof.
  intros Hreach.
  enough (H : contextsAccounted st /\ status (ui st) <> ERROR).
  { intros Hidle k Hk. destruct H as [[H1 H2] _].
    destruct (H1 k Hk) as [?|Hheld]; [done|]. by apply H2. }
  revert st Hreach.
  apply (reachable_invariant frames parse (mounted r c)
           (fun st => contextsAccounted st /\ status (ui st) <> ERROR)).
  - split; [|discriminate]. split.
    + intros k Hk. cbn in Hk. lia.
    + intros _ k [Hk|Hk]; discriminate Hk.
  - intros s o [[H1 H2] Hne] Hoff.
    assert (Hidle : status (ui s) = IDLE).
    { unfold startOffered in Hoff. destruct (status (ui s)); congruence. }
    assert (Hbegin : forall k,
               (k < contexts (env (startTutoring_begin s)))%nat ->
               k ∈ closedContexts (env (startTutoring_begin s))
               \/ audioContextInRef (refs (startTutoring_begin s)) = Some k
               \/ audioContextOutRef (refs (startTutoring_begin s)) = Some k).
    { intros k Hk. cbn in Hk |- *.
      destruct (decide (k < contexts (env s))%nat) as [Hlt|Hge].
      - left. destruct (H1 k Hlt) as [?|Hheld]; [done|]. by apply H2.
      - right.
        destruct (decide (k = contexts (env s))) as [->|Hk'];
          [by left|right; f_equal; lia]. }
    destruct o.
    + unfold startTutoring, startTutoring_catch. split.
      * by apply cleanup_contextsAccounted.
      * match goal with
        | |- context [cleanup ?s] =>
            destruct (cleanup_done s) as (-> & _); discriminate
        end.
    + unfold startTutoring, startTutoring_catch. split.
      * by apply cleanup_contextsAccounted.
      * match goal with
        | |- context [cleanup ?s] =>
            destruct (cleanup_done s) as (-> & _); discriminate
        end.
    + split; [|discriminate]. split; [exact Hbegin|discriminate].
  - intros s [[H1 _] _]. split; [by apply cleanup_contextsAccounted|].
    destruct (cleanup_done s) as (-> & _). discriminate.
  - intros s o [[H1 H2] Hne].
    destruct (handleGradeAssignment_cases parse o s) as [->|[->|[rep ->]]];
      [done | done |].
    split.
    + by apply (cleanup_contextsAccounted
                  (setFinalGrade (Some rep) (setIsGrading true s))).
    + change (status (ui (setIsGrading false ?x))) with (status (ui x)).
      match goal with
      | |- context [cleanup ?s] =>
          destruct (cleanup_done s) as (-> & _); discriminate
      end.
  - intros s [[H1 _] _]. split; [|discriminate].
    split; [exact H1|discriminate].
  - intros s session now m [[H1 H2] Hne].
    destruct (untouched_fields _ _
                (onmessage_untouched session frames now m s))
      as (Es & _ & _ & Ei & Eo & Ec & Ecl & _).
    unfold contextsAccounted. by rewrite Es, Ei, Eo, Ec, Ecl.
  - intros s [[H1 _] _]. unfold onerror. split.
    + by apply (cleanup_contextsAccounted
                  (setError (Some (lit "An error occurred during the session."))
                     s)).
    + match goal with
      | |- context [cleanup ?s] =>
          destruct (cleanup_done s) as (-> & _); discriminate
      end.
  - intros s source H. exact H.
Qed.

Lemma idle_component_has_closed_every_context_witness :
  let st := deliver (fun _ => 0%N) parseSample Disconnect (live []) in
  0 ∈ closedContexts (env st) /\ 1 ∈ closedContexts (env st).
Proof.
  cbn zeta.
  assert (Hreach : reachable (fun _ => 0%N) parseSample
                     (mounted [] (Some board))
                     (deliver (fun _ => 0%N) parseSample Disconnect
                        (live []))).
  { unfold live. apply reach_step; [|reflexivity].
    apply (reach_step _ _ _ _ Open); [|reflexivity].
    apply (reach_step _ _ _ _ (Start ConnectOpens)); [|reflexivity].
    apply reach_init. }
  split;
    apply (idle_component_has_closed_every_context _ _ _ _ _ Hreach
             eq_refl); cbn; lia.
Defined.

(** ** Across sessions *)

Lemma startTutoring_cursor (o : StartOutcome) (st : State) :
  nextStartTimeRef (refs (startTutoring o st)) = nextStartTimeRef (refs st)
  /\ started (env (startTutoring o st)) = started (env st).
Proof.
  destruct o; [| |split; reflexivity];
    unfold startTutoring, startTutoring_catch;
    match goal with
    | |- context [cleanup ?s] =>
        destruct (cleanup_refs_env s)
          as (_ & _ & -> & _ & _ & _ & -> & _)
    end; split; reflexivity.
Qed.

Lemma onopen_playback (st : State) :
  started (env (onopen st)) = started (env st)
  /\ nextStartTimeRef (refs (onopen st)) = nextStartTimeRef (refs st).
Proof. split; reflexivity. Qed.

Lemma startTutoring_opens_context (st : State) :
  is_Some (audioContextOutRef
             (refs (onopen (startTutoring ConnectOpens st)))).
Proof. by eexists. Qed.

(** X12: neither the teardown nor the start touches the playback cursor, so
    it is carried from one session into the next: the first audio chunk of
    a session started after a teardown is scheduled at the later of the old
    cursor and the clock, not at the clock. *)
Theorem cursor_survives_restart (frames : JsString -> N) (now : Z)
    (data : JsString) (o : StartOutcome) (st : State) :
  nextStartTimeRef (refs (cleanup st)) = nextStartTimeRef (refs st)
  /\ nextStartTimeRef (refs (startTutoring o st)) =
       nextStartTimeRef (refs st)
  /\ (truthy data = true ->
      let st' := onopen (startTutoring ConnectOpens (cleanup st)) in
      started (env (onAudio frames now data st')) =
        started (env st) ++
        [{| seg_node := length (started (env st));
            seg_start := Z.max (nextStartTimeRef (refs st)) now;
            seg_duration := Z.of_N (frames data) |}]).
Proof.
  destruct (cleanup_refs_env st)
    as (_ & _ & Hcur & _ & _ & _ & Hst & _).
  split; [exact Hcur|]. split; [apply startTutoring_cursor|].
  intros Hd. cbn zeta.
  pose proof (startTutoring_cursor ConnectOpens (cleanup st)) as [H1 H2].
  pose proof (startTutoring_opens_context (cleanup st)) as Hctx.
  rewrite Hcur in H1. rewrite Hst in H2.
  remember (startTutoring ConnectOpens (cleanup st)) as s1 eqn:E. clear E.
  destruct (onAudio_started frames now data (onopen s1) Hd Hctx) as (H & _).
  cbn zeta in H. rewrite H.
  destruct (onopen_playback s1) as [-> ->].
  by rewrite H1, H2.
Qed.

Lemma cursor_survives_restart_witness :
  let frames := fun _ : JsString => 24000%N in
  let st := onmessage 0 frames 0 (audioEvent (lit "AAAA")) (live []) in
  let st' := onopen (startTutoring ConnectOpens (cleanup st)) in
  started (env (onAudio frames 0 (lit "BBBB") st')) =
    started (env st) ++
    [{| seg_node := 1; seg_start := 24000; seg_duration := 24000 |}].
Proof.
  cbn zeta.
  apply (cursor_survives_restart (fun _ => 24000%N) 0 (lit "BBBB")
           ConnectOpens
           (onmessage 0 (fun _ => 24000%N) 0 (audioEvent (lit "AAAA"))
              (live []))).
  reflexivity.
Defined.

Lemma orElse_truthy (a : option JsString) (b : JsString) :
  truthy b = true -> truthy (orElse a b) = true.
Proof.
  intros Hb. unfold orElse. destruct a as [s|]; [|exact Hb].
  by destruct (truthy s) eqn:E.
Qed.

(** X13: a start whose connect is refused ends with the message of the
    rejection, or with the fixed message when it has none or an empty one,
    so that the error is never empty and the banner shows; no session is
    opened or held, and the component is idle with the start control offered
    again.  The microphone stream acquired before the connect is outside the
    state kept here, and nothing is said about it. *)
Theorem failed_start_reports_and_allows_retry (message : option JsString)
    (st : State) :
  let st' := startTutoring (ConnectFails message) st in
  error (ui st') =
    Some (orElse message (lit "Failed to initialize session."))
  /\ (exists e, error (ui st') = Some e /\ e <> [])
  /\ connections (env st') = connections (env st)
  /\ sessionRef (refs st') = None
  /\ status (ui st') = IDLE
  /\ startOffered st' = true.
Proof.
  cbn zeta.
  unfold startTutoring, startTutoring_catch, startOffered.
  match goal with
  | |- context [cleanup ?s] =>
      destruct (cleanup_done s) as (-> & _ & _ & _ & _ & _ & -> & _);
      destruct (cleanup_ui s) as (_ & -> & _);
      destruct (cleanup_refs_env s)
        as (_ & _ & _ & _ & _ & _ & _ & _ & -> & _)
  end.
  repeat split; try reflexivity.
  eexists. split; [reflexivity|].
  apply truthy_true. by apply orElse_truthy.
Qed.

Lemma cleanup_setError (e : option JsString) (st : State) :
  cleanup (setError e st) = setError e (cleanup st).
Proof. cleanup_cases st; reflexivity. Qed.

(** X14: a transport error and a remote close end the session in the same
    way, by the teardown; the error callback also sets its fixed message,
    while the close callback leaves the error message as it was, so a
    session closed by the remote side ends without any message. *)
Theorem error_and_close_differ_by_the_message (st : State) :
  onerror st =
    setError (Some (lit "An error occurred during the session."))
             (onclose st)
  /\ error (ui (onclose st)) = error (ui st)
  /\ status (ui (onclose st)) = IDLE
  /\ sessionRef (refs (onclose st)) = None.
Proof.
  unfold onerror, onclose. split; [apply cleanup_setError|].
  destruct (cleanup_ui st) as (_ & -> & _).
  destruct (cleanup_done st) as (-> & _ & _ & _ & _ & _ & -> & _).
  done.
Qed.

Lemma cleanup_timers (st : State) (t : positive) :
  intervalRef (refs st) = Some t ->
  timers (env (cleanup st)) = timers (env st) ∖ {[t]}.
Proof. intros H. cleanup_cases st; cbn in H; by simplify_eq. Qed.

(** X15: the sampling timer that [onopen] starts is held by [intervalRef]
    and keeps running through any messages that follow, and the next
    teardown cancels it and no other timer. *)
Theorem sampler_timer_runs_until_teardown (session : nat)
    (frames : JsString -> N) (ms : list (Z * Message)) (st : State) :
  let t := nextTimer (env st) in
  let st' := receiveAll session frames ms (onopen st) in
  intervalRef (refs st') = Some t
  /\ t ∈ timers (env st')
  /\ timers (env (cleanup st')) = timers (env st) ∖ {[t]}.
Proof.
  cbn zeta.
  destruct (untouched_fields _ _
              (receiveAll_untouched session frames ms (onopen st)))
    as (_ & _ & _ & _ & _ & _ & _ & Hi & Ht).
  assert (Href : intervalRef (refs (receiveAll session frames ms (onopen st)))
                 = Some (nextTimer (env st))) by (by rewrite Hi).
  split; [exact Href|]. split.
  - rewrite Ht. cbn. set_solver.
  - rewrite (cleanup_timers _ _ Href), Ht. cbn. set_solver.
Qed.

(** ** Grading and the session *)

Lemma setIsGrading_fields (b : bool) (st : State) :
  status (ui (setIsGrading b st)) = status (ui st)
  /\ transcriptions (ui (setIsGrading b st)) = transcriptions (ui st)
  /\ error (ui (setIsGrading b st)) = error (ui st)
  /\ finalGrade (ui (setIsGrading b st)) = finalGrade (ui st)
  /\ refs (setIsGrading b st) = refs st
  /\ env (setIsGrading b st) = env st.
Proof. repeat split; reflexivity. Qed.

(** X16: a grading that gets a usable answer stores the report and ends the
    session by the teardown, keeping the history and the error message; a
    grading that fails (no response, a body that does not parse, or the
    body [null]) only sets its error message: the session, the status, the
    pending audio, the history and the report stay as they were. *)
Theorem grading_ends_the_session_only_on_success
    (parse : JsString -> option JsonValue) (st : State) :
  is_Some (canvasRef (refs st)) ->
  (forall text result g f,
     parse (orElse text (lit "{}")) = Some result ->
     readField result (lit "grade") = Some g ->
     readField result (lit "feedback") = Some f ->
     let st' := handleGradeAssignment parse (Responds text) st in
     finalGrade (ui st') =
       Some {| grade := orPlaceholder g GRADE_PLACEHOLDER;
               feedback := orPlaceholder f FEEDBACK_PLACEHOLDER |}
     /\ status (ui st') = IDLE
     /\ sessionRef (refs st') = None
     /\ sourcesRef (refs st') = ∅
     /\ sourcesRef (refs st) ⊆ stopped (env st')
     /\ transcriptions (ui st') = transcriptions (ui st)
     /\ error (ui st') = error (ui st))
  /\ (forall o,
        match o with
        | RequestFails => True
        | Responds text =>
            parse (orElse text (lit "{}")) = None
            \/ parse (orElse text (lit "{}")) = Some JNull
        end ->
        let st' := handleGradeAssignment parse o st in
        error (ui st') =
          Some (lit "Grading process failed. Please try again.")
        /\ finalGrade (ui st') = finalGrade (ui st)
        /\ status (ui st') = status (ui st)
        /\ transcriptions (ui st') = transcriptions (ui st)
        /\ refs st' = refs st
        /\ env st' = env st).
Proof.
  intros [c Hc]. split.
  - intros text result g f Hp Hg Hf. cbn zeta.
    unfold handleGradeAssignment. rewrite Hc.
    rewrite (grading_store_ok parse text _ result g f Hp Hg Hf). cbn zeta.
    set (s1 := setFinalGrade _ (setIsGrading true st)).
    destruct (setIsGrading_fields false (cleanup s1))
      as (-> & -> & -> & -> & -> & ->).
    destruct (cleanup_ui s1) as (-> & -> & _ & ->).
    destruct (cleanup_done s1)
      as (-> & _ & _ & _ & _ & -> & -> & Hstop & _).
    repeat split; try reflexivity. exact Hstop.
  - intros o Ho. cbn zeta. unfold handleGradeAssignment. rewrite Hc.
    destruct o as [|text]; [repeat split; reflexivity|].
    unfold grading_store.
    destruct Ho as [-> | ->]; repeat split; reflexivity.
Qed.

Lemma grading_ends_the_session_only_on_success_witness :
  let st' := handleGradeAssignment parseSample (Responds (Some gradeOnlyBody))
               (live []) in
  finalGrade (ui st') =
    Some {| grade := JString (lit "A");
            feedback := JString FEEDBACK_PLACEHOLDER |}
  /\ status (ui st') = IDLE
  /\ sessionRef (refs st') = None
  /\ sourcesRef (refs st') = ∅
  /\ sourcesRef (refs (live [])) ⊆ stopped (env st')
  /\ transcriptions (ui st') = transcriptions (ui (live []))
  /\ error (ui st') = error (ui (live [])).
Proof.
  cbn zeta.
  assert (Hc : is_Some (canvasRef (refs (live [])))) by (by eexists).
  destruct (grading_ends_the_session_only_on_success parseSample (live [])
              Hc) as [H _].
  apply (H (Some gradeOnlyBody)
           (JObject [(lit "grade", JString (lit "A"))])
           (Some (JString (lit "A"))) None); reflexivity.
Defined.

(** ** The grading prompt *)

Lemma join_app (sep : JsString) (a b : list JsString) :
  a <> [] -> b <> [] -> join sep (a ++ b) = join sep a ++ sep ++ join sep b.
Proof.
  intros Ha Hb. induction a as [|l a IH]; [done|].
  destruct a as [|l' a].
  - cbn. destruct b; [done|reflexivity].
  - change (join sep ((l :: l' :: a) ++ b))
      with (l ++ sep ++ join sep ((l' :: a) ++ b)).
    rewrite IH by done.
    change (join sep (l :: l' :: a)) with (l ++ sep ++ join sep (l' :: a)).
    by rewrite <- !app_assoc.
Qed.

(** X17: the history part of the grading prompt is built turn by turn: the
    text for a history that was extended is the text for the earlier part,
    a line break, and the text for the entries added, each entry being its
    role, a colon and a space, and its text. *)
Theorem history_text_extends (earlier added : list TranscriptionEntry) :
  earlier <> [] -> added <> [] ->
  historyText (earlier ++ added) =
    historyText earlier ++ nl ++ historyText added
  /\ forall e, historyText [e] = roleText (role e) ++ lit ": " ++ text e.
Proof.
  intros He Ha. split; [|reflexivity].
  unfold historyText. rewrite map_app. apply join_app.
  - by destruct earlier.
  - by destruct added.
Qed.

Lemma history_text_extends_witness :
  historyText ([{| role := user; text := lit "x is 5" |}] ++
               [{| role := model; text := lit "Check it" |}]) =
  lit "user: x is 5" ++ nl ++ lit "model: Check it".
Proof.
  refine (proj1 (history_text_extends
                   [{| role := user; text := lit "x is 5" |}]
                   [{| role := model; text := lit "Check it" |}] _ _));
    discriminate.
Defined.

Lemma blank_head (r : JsString) :
  trim r = [] ->
  match r with [] => True | c :: _ => isWhiteSpace c = true end.
Proof.
  intros Ht. destruct r as [|c r]; [done|].
  destruct (isWhiteSpace c) eqn:E; [done|].
  unfold trim in Ht. rewrite (trimStart_keeps c r E) in Ht.
  by rewrite (trimEnd_keeps c r E) in Ht.
Qed.

(** X18: a rubric that is not empty but blank counts as no rubric when the
    session starts (the instruction is the one for the empty rubric), and
    yet is named as it is in the grading prompt, whose default phrase
    stands in for the empty rubric only: the prompt for the blank rubric is
    not the prompt for the empty one. *)
Theorem blank_rubric_is_read_two_ways (r : JsString)
    (ts : list TranscriptionEntry) :
  r <> [] -> trim r = [] ->
  finalInstruction r = finalInstruction []
  /\ promptRubric r = r
  /\ promptRubric [] = DEFAULT_RUBRIC
  /\ prompt r ts <> prompt [] ts.
Proof.
  intros Hr Ht.
  assert (Hp : promptRubric r = r).
  { unfold promptRubric, orElse. apply truthy_true in Hr. by rewrite Hr. }
  split; [|split; [exact Hp|split; [reflexivity|]]].
  - unfold finalInstruction, behaviorInstruction.
    rewrite hasRubric_trim, Ht. reflexivity.
  - unfold prompt. rewrite Hp. intros H.
    do 3 apply app_inv_head in H.
    pose proof (blank_head r Ht) as Hw.
    destruct r as [|c r]; [done|].
    injection H as -> _. discriminate Hw.
Qed.

Lemma blank_rubric_is_read_two_ways_witness :
  finalInstruction (lit "  ") = finalInstruction []
  /\ promptRubric (lit "  ") = lit "  "
  /\ promptRubric [] = DEFAULT_RUBRIC
  /\ prompt (lit "  ") [] <> prompt [] [].
Proof.
  apply (blank_rubric_is_read_two_ways (lit "  ") []);
    [discriminate|reflexivity].
Defined.

(** ** The handwriting canvas *)

Lemma gestures_cons (g : MathCanvas.Gesture) (gs : list MathCanvas.Gesture)
    (pad : MathCanvas.Pad) :
  MathCanvas.gestures (g :: gs) pad =
  MathCanvas.gestures gs (MathCanvas.gesture g pad).
Proof. reflexivity. Qed.

Lemma moves_with_pen_up (es : list (MathCanvas.Rect * MathCanvas.Pointer))
    (pad : MathCanvas.Pad) :
  MathCanvas.drawingRef pad = false ->
  MathCanvas.gestures (MathCanvas.moves es) pad = pad.
Proof.
  intros H. induction es as [|[rect e] es IH]; [done|].
  cbn [MathCanvas.moves map]. rewrite gestures_cons.
  cbn [MathCanvas.gesture fst snd]. unfold MathCanvas.draw. rewrite H.
  exact IH.
Qed.

(** X19: the pad draws only while the pointer is down: moves that come
    before any press, or after the pointer was lifted, leave the pad as it
    is, whatever their number and positions. *)
Theorem pen_up_draws_nothing
    (es : list (MathCanvas.Rect * MathCanvas.Pointer))
    (pad : MathCanvas.Pad) :
  MathCanvas.gestures (MathCanvas.Up :: MathCanvas.moves es) pad =
    MathCanvas.endDrawing pad
  /\ MathCanvas.ink
       (MathCanvas.gestures (MathCanvas.Up :: MathCanvas.moves es) pad) =
     MathCanvas.ink pad
  /\ (MathCanvas.drawingRef pad = false ->
      MathCanvas.gestures (MathCanvas.moves es) pad = pad).
Proof.
  rewrite gestures_cons. cbn [MathCanvas.gesture].
  rewrite (moves_with_pen_up es (MathCanvas.endDrawing pad)) by reflexivity.
  repeat split. apply moves_with_pen_up.
Qed.

Lemma pen_up_draws_nothing_witness :
  MathCanvas.gestures
    (MathCanvas.moves [(MathCanvas.corner, MathCanvas.Mouse 30 40);
                       (MathCanvas.corner, MathCanvas.Mouse 50 60)])
    MathCanvas.fresh = MathCanvas.fresh.
Proof.
  exact (proj2 (proj2 (pen_up_draws_nothing
                         [(MathCanvas.corner, MathCanvas.Mouse 30 40);
                          (MathCanvas.corner, MathCanvas.Mouse 50 60)]
                         MathCanvas.fresh)) eq_refl).
Defined.

Lemma last_cons {A : Type} (a d : A) (l : list A) :
  List.last (a :: l) d = List.last l a.
Proof.
  revert a d. induction l as [|b l IH]; intros a d; [done|].
  change (List.last (a :: b :: l) d) with (List.last (b :: l) d).
  by rewrite (IH b d), (IH b a).
Qed.

Lemma moves_with_pen_down (es : list (MathCanvas.Rect * MathCanvas.Pointer))
    (el : MathCanvas.Element) (last : MathCanvas.Point) (k : nat) :
  MathCanvas.has2d el = true ->
  MathCanvas.gestures (MathCanvas.moves es)
    {| MathCanvas.canvasRef := Some el; MathCanvas.drawingRef := true;
       MathCanvas.lastPosRef := last; MathCanvas.handed := k |} =
  {| MathCanvas.canvasRef :=
       Some {| MathCanvas.width := MathCanvas.width el;
               MathCanvas.height := MathCanvas.height el;
               MathCanvas.has2d := true;
               MathCanvas.marks :=
                 MathCanvas.marks el ++
                 MathCanvas.chain last (MathCanvas.positions last es) |};
     MathCanvas.drawingRef := true;
     MathCanvas.lastPosRef :=
       List.last (MathCanvas.positions last es) last;
     MathCanvas.handed := k |}.
Proof.
  revert el last. induction es as [|[rect e] es IH]; intros el last H.
  - cbn. rewrite app_nil_r. destruct el. cbn in H. by subst.
  - cbn [MathCanvas.moves map]. rewrite gestures_cons.
    cbn [MathCanvas.gesture fst snd]. unfold MathCanvas.draw.
    cbn [MathCanvas.drawingRef MathCanvas.canvasRef MathCanvas.lastPosRef
         MathCanvas.handed]. rewrite H.
    change (MathCanvas.getPointerPos rect e _)
      with (MathCanvas.position rect e last).
    fold (MathCanvas.moves es). rewrite IH by reflexivity.
    cbn [MathCanvas.width MathCanvas.height MathCanvas.marks
         MathCanvas.positions MathCanvas.chain].
    rewrite <- app_assoc. cbn [app].
    by rewrite last_cons.
Qed.

(** X20: on a canvas with a 2d context, a press followed by moves draws one
    line per move, each from where the line before it ended and the first
    from the point of the press, behind the marks already there; a touch
    event without touches stays at the last position. *)
Theorem stroke_is_continuous (rect : MathCanvas.Rect)
    (e : MathCanvas.Pointer)
    (es : list (MathCanvas.Rect * MathCanvas.Pointer))
    (pad : MathCanvas.Pad) (el : MathCanvas.Element) :
  MathCanvas.canvasRef pad = Some el -> MathCanvas.has2d el = true ->
  let start := MathCanvas.position rect e (MathCanvas.lastPosRef pad) in
  let points := MathCanvas.positions start es in
  let pad' := MathCanvas.gestures
                (MathCanvas.Down rect e :: MathCanvas.moves es) pad in
  MathCanvas.ink pad' = MathCanvas.marks el ++ MathCanvas.chain start points
  /\ length points = length es
  /\ MathCanvas.lastPosRef pad' = List.last points start
  /\ MathCanvas.drawingRef pad' = true
  /\ forall rect' last,
       MathCanvas.position rect' (MathCanvas.Touches []) last = last.
Proof.
  intros Hc H. cbn zeta. rewrite gestures_cons.
  cbn [MathCanvas.gesture]. unfold MathCanvas.startDrawing.
  unfold MathCanvas.getPointerPos. rewrite Hc.
  change (match e with
          | MathCanvas.Mouse clientX clientY
          | MathCanvas.Touches ((clientX, clientY) :: _) => _
          | MathCanvas.Touches [] => MathCanvas.lastPosRef pad
          end)
    with (MathCanvas.position rect e (MathCanvas.lastPosRef pad)).
  rewrite (moves_with_pen_down es el _ _ H).
  repeat split.
  generalize (MathCanvas.position rect e (MathCanvas.lastPosRef pad)).
  induction es as [|[r1 e1] es IH]; intros p; cbn; [done|].
  by rewrite IH.
Qed.

Lemma stroke_is_continuous_witness :
  MathCanvas.ink
    (MathCanvas.gestures
       (MathCanvas.Down MathCanvas.corner (MathCanvas.Mouse 30 40)
        :: MathCanvas.moves
             [(MathCanvas.corner, MathCanvas.Mouse 50 60);
              (MathCanvas.corner, MathCanvas.Touches [])])
       MathCanvas.fresh) =
  [MathCanvas.Line {| MathCanvas.x := 20; MathCanvas.y := 20 |}
                   {| MathCanvas.x := 40; MathCanvas.y := 40 |};
   MathCanvas.Line {| MathCanvas.x := 40; MathCanvas.y := 40 |}
                   {| MathCanvas.x := 40; MathCanvas.y := 40 |}].
Proof.
  exact (proj1 (stroke_is_continuous MathCanvas.corner
                  (MathCanvas.Mouse 30 40)
                  [(MathCanvas.corner, MathCanvas.Mouse 50 60);
                   (MathCanvas.corner, MathCanvas.Touches [])]
                  MathCanvas.fresh MathCanvas.blank eq_refl eq_refl)).
Defined.

Lemma gesture_adds (g : MathCanvas.Gesture) (pad : MathCanvas.Pad) :
  exists added,
    MathCanvas.ink (MathCanvas.gesture g pad) = MathCanvas.ink pad ++ added
    /\ (length added <= if MathCanvas.isMove g then 1 else 0)%nat
    /\ MathCanvas.handed (MathCanvas.gesture g pad) = MathCanvas.handed pad.
Proof.
  destruct g as [rect e|rect e|]; cbn [MathCanvas.gesture MathCanvas.isMove].
  - exists []. rewrite app_nil_r. repeat split. cbn. lia.
  - unfold MathCanvas.draw, MathCanvas.ink.
    destruct (MathCanvas.drawingRef pad);
      [|exists []; rewrite app_nil_r; repeat split; cbn; lia].
    destruct (MathCanvas.canvasRef pad) as [el|] eqn:E;
      [|exists []; rewrite E; repeat split; cbn; lia].
    destruct (MathCanvas.has2d el);
      [|exists []; rewrite E, app_nil_r; repeat split; cbn; lia].
    eexists [_]. cbn. repeat split. lia.
  - exists []. rewrite app_nil_r. repeat split. cbn. lia.
Qed.

(** X21: pointer gestures only add to the drawing: whatever their sequence,
    the marks that were on the canvas stay, in their order, at most one
    mark per move is added behind them, and the canvas is never handed to
    the parent again. *)
Theorem gestures_only_add_marks (gs : list MathCanvas.Gesture)
    (pad : MathCanvas.Pad) :
  exists added,
    MathCanvas.ink (MathCanvas.gestures gs pad) = MathCanvas.ink pad ++ added
    /\ (length added <= length (List.filter MathCanvas.isMove gs))%nat
    /\ MathCanvas.handed (MathCanvas.gestures gs pad) = MathCanvas.handed pad.
Proof.
  revert pad. induction gs as [|g gs IH]; intros pad.
  - exists []. cbn. by rewrite app_nil_r.
  - rewrite gestures_cons.
    destruct (gesture_adds g pad) as (a1 & H1 & L1 & K1).
    destruct (IH (MathCanvas.gesture g pad)) as (a2 & H2 & L2 & K2).
    exists (a1 ++ a2). rewrite H2, H1, K2, K1, <- app_assoc.
    repeat split. rewrite length_app. cbn [List.filter].
    destruct (MathCanvas.isMove g); cbn [length]; lia.
Qed.

(** X22: a resize to the size the canvas already has does nothing, so a
    second resize to the same parent size changes nothing after the first
    and hands the canvas over no second time; a resize never touches the
    state of the pointer; and when it does change the size of a canvas with
    a 2d context and a positive size, the bitmap is filled white and the
    marks that were there are drawn back onto it. *)
Theorem resize_settles (parent : option (Z * Z)) (pad : MathCanvas.Pad) :
  MathCanvas.handleResize parent (MathCanvas.handleResize parent pad) =
    MathCanvas.handleResize parent pad
  /\ MathCanvas.drawingRef (MathCanvas.handleResize parent pad) =
       MathCanvas.drawingRef pad
  /\ MathCanvas.lastPosRef (MathCanvas.handleResize parent pad) =
       MathCanvas.lastPosRef pad
  /\ forall el w h,
       MathCanvas.canvasRef pad = Some el -> parent = Some (w, h) ->
       MathCanvas.has2d el = true ->
       (0 < MathCanvas.width el)%Z -> (0 < MathCanvas.height el)%Z ->
       (MathCanvas.width el, MathCanvas.height el) <> (w, h) ->
       MathCanvas.ink (MathCanvas.handleResize parent pad) =
         [MathCanvas.Fill w h;
          MathCanvas.Image (MathCanvas.marks el) (MathCanvas.width el)
                           (MathCanvas.height el)]
       /\ MathCanvas.handed (MathCanvas.handleResize parent pad) =
            S (MathCanvas.handed pad).
Proof.
  split; [|split; [|split]].
  - destruct pad as [[el|] d l k], parent as [[w h]|]; try reflexivity.
    unfold MathCanvas.handleResize at 2 3. cbn [MathCanvas.canvasRef].
    destruct (bool_decide (MathCanvas.width el <> w)
              || bool_decide (MathCanvas.height el <> h)) eqn:Ed.
    + unfold MathCanvas.handleResize.
      cbn [MathCanvas.canvasRef MathCanvas.width MathCanvas.height].
      rewrite !bool_decide_eq_false_2 by (intros Hne; by apply Hne).
      reflexivity.
    + unfold MathCanvas.handleResize. cbn [MathCanvas.canvasRef].
      by rewrite Ed.
  - unfold MathCanvas.handleResize.
    destruct (MathCanvas.canvasRef pad) as [el|]; [|done].
    destruct parent as [[w h]|]; [|done].
    by destruct (_ || _).
  - unfold MathCanvas.handleResize.
    destruct (MathCanvas.canvasRef pad) as [el|]; [|done].
    destruct parent as [[w h]|]; [|done].
    by destruct (_ || _).
  - intros el w h E -> H2d Hw Hh Hne.
    unfold MathCanvas.handleResize, MathCanvas.ink. rewrite E.
    assert (Hd : bool_decide (MathCanvas.width el <> w)
                 || bool_decide (MathCanvas.height el <> h) = true).
    { destruct (decide (MathCanvas.width el = w)) as [Ew|Ew].
      - rewrite (bool_decide_eq_true_2 (MathCanvas.height el <> h));
          [by rewrite orb_true_r|].
        intros Eh. apply Hne. by rewrite Ew, Eh.
      - by rewrite (bool_decide_eq_true_2 _ Ew). }
    rewrite Hd, H2d. cbn.
    apply Z.ltb_lt in Hw, Hh. by rewrite Hw, Hh.
Qed.

Lemma resize_settles_witness :
  MathCanvas.ink
    (MathCanvas.handleResize (Some (800, 600)%Z)
       (MathCanvas.gestures
          (MathCanvas.Down MathCanvas.corner (MathCanvas.Mouse 30 40)
           :: MathCanvas.moves [(MathCanvas.corner, MathCanvas.Mouse 50 60)])
          MathCanvas.fresh)) =
    [MathCanvas.Fill 800 600;
     MathCanvas.Image
       [MathCanvas.Line {| MathCanvas.x := 20; MathCanvas.y := 20 |}
                        {| MathCanvas.x := 40; MathCanvas.y := 40 |}]
       300 150]
  /\ MathCanvas.handed
       (MathCanvas.handleResize (Some (800, 600)%Z)
          (MathCanvas.gestures
             (MathCanvas.Down MathCanvas.corner (MathCanvas.Mouse 30 40)
              :: MathCanvas.moves
                   [(MathCanvas.corner, MathCanvas.Mouse 50 60)])
             MathCanvas.fresh)) = 1.
Proof.
  refine (proj2 (proj2 (proj2
            (resize_settles (Some (800, 600)%Z)
               (MathCanvas.gestures
                  (MathCanvas.Down MathCanvas.corner (MathCanvas.Mouse 30 40)
                   :: MathCanvas.moves
                        [(MathCanvas.corner, MathCanvas.Mouse 50 60)])
                  MathCanvas.fresh))))
            {| MathCanvas.width := 300; MathCanvas.height := 150;
               MathCanvas.has2d := true;
               MathCanvas.marks :=
                 [MathCanvas.Line
                    {| MathCanvas.x := 20; MathCanvas.y := 20 |}
                    {| MathCanvas.x := 40; MathCanvas.y := 40 |}] |}
            800%Z 600%Z eq_refl eq_refl eq_refl _ _ _);
    [reflexivity | reflexivity | discriminate].
Defined.
